(** * Rigid-body superimposition (structure/superimpose.py)

    A shallow embedding of [superimpose], [_superimpose] and
    [apply_superimposition].  Python objects live in a store of cells that
    is threaded through every operation, so that in-place updates
    ([-=], [+=], attribute assignment) and aliasing are visible.  Floating
    point numbers are idealised as exact rationals. *)

From Stdlib Require Import QArith Qabs Lqa QNsatz Lia Ascii.
From stdpp Require Import base list strings gmap pretty.

Local Open Scope string_scope.
Local Open Scope list_scope.

(** ** Small dense arrays: shapes (3,), (3,3) and (N,3) *)

Definition vec3 : Type := Q * Q * Q.
Definition mat3 : Type := vec3 * vec3 * vec3.

Definition vzero : vec3 := (0, 0, 0)%Q.

Definition vadd (a b : vec3) : vec3 :=
  let '(a1, a2, a3) := a in
  let '(b1, b2, b3) := b in
  (a1 + b1, a2 + b2, a3 + b3)%Q.

Definition vsub (a b : vec3) : vec3 :=
  let '(a1, a2, a3) := a in
  let '(b1, b2, b3) := b in
  (a1 - b1, a2 - b2, a3 - b3)%Q.

Definition vneg (a : vec3) : vec3 :=
  let '(a1, a2, a3) := a in (- a1, - a2, - a3)%Q.

Definition vscale (k : Q) (a : vec3) : vec3 :=
  let '(a1, a2, a3) := a in (k * a1, k * a2, k * a3)%Q.

Definition vdot (a b : vec3) : Q :=
  let '(a1, a2, a3) := a in
  let '(b1, b2, b3) := b in
  (a1 * b1 + a2 * b2 + a3 * b3)%Q.

(** [m.T] *)
Definition mT (m : mat3) : mat3 :=
  let '((a11, a12, a13), (a21, a22, a23), (a31, a32, a33)) := m in
  ((a11, a21, a31), (a12, a22, a32), (a13, a23, a33)).

(** Row vector times matrix: one row of [np.dot(p, m)]. *)
Definition vmat (p : vec3) (m : mat3) : vec3 :=
  let '(c1, c2, c3) := mT m in (vdot p c1, vdot p c2, vdot p c3).

(** [np.dot(a, b)] for two (3,3) arrays. *)
Definition mmul (a b : mat3) : mat3 :=
  let '(r1, r2, r3) := a in (vmat r1 b, vmat r2 b, vmat r3 b).

Definition madd (a b : mat3) : mat3 :=
  let '(a1, a2, a3) := a in
  let '(b1, b2, b3) := b in
  (vadd a1 b1, vadd a2 b2, vadd a3 b3).

Definition mzero : mat3 := (vzero, vzero, vzero).

Definition midentity : mat3 := ((1, 0, 0), (0, 1, 0), (0, 0, 1))%Q.

(** Outer product [p^T q], the contribution of one point pair to [y.T x]. *)
Definition outer (p q : vec3) : mat3 :=
  let '(p1, p2, p3) := p in (vscale p1 q, vscale p2 q, vscale p3 q).

(** [np.dot(y.T, x)] for [y], [x] of shape (N,3): the (3,3) sum of the outer
    products of corresponding rows.  It is only reached with [len(y) = len(x)]. *)
Definition dot_T (y x : list vec3) : mat3 :=
  foldr (fun yx acc => madd (outer yx.1 yx.2) acc) mzero (zip y x).

(** [np.dot(c, m)] for [c] of shape (N,3) and [m] of shape (3,3). *)
Definition dot_rows (c : list vec3) (m : mat3) : list vec3 :=
  map (fun p => vmat p m) c.

(** [np.linalg.det] of a (3,3) array, by cofactor expansion. *)
Definition det (m : mat3) : Q :=
  let '((a, b, c), (d, e, f), (g, h, i)) := m in
  (a * (e * i - f * h) - b * (d * i - f * g) + c * (d * h - e * g))%Q.

(** [m[:,-1] *= -1] *)
Definition neg_last_col (m : mat3) : mat3 :=
  let '((a, b, c), (d, e, f), (g, h, i)) := m in
  ((a, b, (c * -1)%Q), (d, e, (f * -1)%Q), (g, h, (i * -1)%Q)).

(** Strict comparison [a < b] as evaluated by an [if]. *)
Definition Qltb (a b : Q) : bool := negb (Qle_bool b a).

(** Modelled from the spec: geometry.centroid is not part of the sources;
    the glossary defines the centroid as the arithmetic mean position of a
    point set.  [mean c] is that mean for an (N,3) array. *)
Definition mean (c : list vec3) : vec3 :=
  let '(s1, s2, s3) := foldr vadd vzero c in
  let n := inject_Z (Z.of_nat (length c)) in
  (s1 / n, s2 / n, s3 / n)%Q.

(** ** Exceptions, results and the store *)

Record exn := Exception { exn_class : string; exn_msg : string }.

Inductive result (A : Type) : Type :=
| Ok (a : A)
| Raise (e : exn).
Arguments Ok {A} a.
Arguments Raise {A} e.

Abbreviation loc := nat.

(** Modelled from the spec: the atoms module (AtomArray, AtomArrayStack,
    stack, copy) is not part of the sources.  An AtomArray carries a
    coordinate array of shape (N,3), an atom-name annotation and further
    per-point annotation arrays; the coordinate array is a reference into
    the store, because the code updates it in place. *)
Record AtomArray := mkAtomArray {
  coord : loc;
  atom_name : list string;
  annot : list (string * list string)
}.

Inductive cell :=
| CNdarray (a : list vec3)            (* a float array of shape (N,3) *)
| CAtomArray (o : AtomArray)
| CAtomArrayStack (models : list loc) (* the member structures, in order *)
| CObject.                            (* any other Python object *)

Abbreviation heap := (list cell).

Definition M (A : Type) : Type := heap -> result A * heap.

Definition ret {A} (a : A) : M A := fun h => (Ok a, h).

Definition raise {A} (e : exn) : M A := fun h => (Raise e, h).

Definition bind {A B} (m : M A) (k : A -> M B) : M B :=
  fun h => match m h with
           | (Ok a, h') => k a h'
           | (Raise e, h') => (Raise e, h')
           end.

Notation "x <- m ;; k" := (bind m (fun x => k))
  (at level 100, m at next level, right associativity).
Notation "m ;;; k" := (bind m (fun _ => k))
  (at level 100, right associativity).

Definition alloc (c : cell) : M loc := fun h => (Ok (length h), h ++ [c]).

Definition load (l : loc) : M (option cell) := fun h => (Ok (h !! l), h).

Definition store (l : loc) (c : cell) : M unit := fun h => (Ok tt, <[l := c]> h).

(** ** Name resolution for [raise Name(msg)] *)

(** The names bound at module level by the import statements and the three
    function definitions of superimpose.py. *)
Definition module_globals : list string :=
  ["np"; "centroid"; "Atom"; "AtomArray"; "AtomArrayStack"; "stack";
   "superimpose"; "_superimpose"; "apply_superimposition"].

Definition builtin_exceptions : list string :=
  ["ValueError"; "IndexError"; "TypeError"; "AttributeError"; "NameError"].

Definition is_bound (name : string) : bool :=
  bool_decide (name ∈ module_globals ++ builtin_exceptions).

(** [raise cls(msg)]: the class name is looked up first; an unbound name
    raises NameError instead of the intended exception. *)
Definition raise_class {A} (cls msg : string) : M A :=
  if is_bound cls then raise (Exception cls msg)
  else raise (Exception "NameError" (String.append "name '" (String.append cls "' is not defined"))).

(** ** Python-level operations on store objects *)

Inductive pytype := TAtomArray | TAtomArrayStack | Tndarray | Tobject.

#[global] Instance pytype_eq_dec : EqDecision pytype.
Proof. solve_decision. Defined.

Definition type_of_cell (c : option cell) : pytype :=
  match c with
  | Some (CAtomArray _) => TAtomArray
  | Some (CAtomArrayStack _) => TAtomArrayStack
  | Some (CNdarray _) => Tndarray
  | _ => Tobject
  end.

(** [type(x)] *)
Definition type_ (x : loc) : M pytype :=
  c <- load x ;; ret (type_of_cell c).

Definition as_AtomArray (x : loc) (attr : string) : M AtomArray :=
  c <- load x ;;
  match c with
  | Some (CAtomArray o) => ret o
  | _ => raise (Exception "AttributeError" attr)
  end.

(** [x.coord] and [x.atom_name] *)
Definition get_coord (x : loc) : M loc :=
  o <- as_AtomArray x "coord" ;; ret (coord o).

Definition get_atom_name (x : loc) : M (list string) :=
  o <- as_AtomArray x "atom_name" ;; ret (atom_name o).

(** [x.coord = a] *)
Definition set_coord (x : loc) (a : loc) : M unit :=
  o <- as_AtomArray x "coord" ;;
  store x (CAtomArray (mkAtomArray a (atom_name o) (annot o))).

Definition as_ndarray (a : loc) : M (list vec3) :=
  c <- load a ;;
  match c with
  | Some (CNdarray rows) => ret rows
  | _ => raise (Exception "TypeError" "not a coordinate array")
  end.

(** [len(a)] *)
Definition len (a : loc) : M nat :=
  rows <- as_ndarray a ;; ret (length rows).

(** [np.copy(a)]: a new array with the same contents. *)
Definition np_copy (a : loc) : M loc :=
  rows <- as_ndarray a ;; alloc (CNdarray rows).

(** [names == s]: the elementwise comparison of an annotation array. *)
Definition eq_mask (names : list string) (s : string) : list bool :=
  map (fun n => String.eqb n s) names.

Definition mask_select (rows : list vec3) (mask : list bool) : list vec3 :=
  map fst (List.filter snd (zip rows mask)).

(** [a[mask]] with a boolean mask: a new array holding the selected rows;
    the mask must be as long as the array. *)
Definition getitem_mask (a : loc) (mask : list bool) : M loc :=
  rows <- as_ndarray a ;;
  if Nat.eqb (length mask) (length rows)
  then alloc (CNdarray (mask_select rows mask))
  else raise (Exception "IndexError" "boolean index did not match indexed array").

(** [a -= v] and [a += v] with [v] of shape (3,): in place, row by row. *)
Definition isub (a : loc) (v : vec3) : M unit :=
  rows <- as_ndarray a ;; store a (CNdarray (map (fun p => vsub p v) rows)).

Definition iadd (a : loc) (v : vec3) : M unit :=
  rows <- as_ndarray a ;; store a (CNdarray (map (fun p => vadd p v) rows)).

(** [np.dot(a, m)]: a new (N,3) array. *)
Definition np_dot (a : loc) (m : mat3) : M loc :=
  rows <- as_ndarray a ;; alloc (CNdarray (dot_rows rows m)).

(** [np.dot(y.T, x)]: a (3,3) value. *)
Definition np_dot_T (y x : loc) : M mat3 :=
  ry <- as_ndarray y ;; rx <- as_ndarray x ;; ret (dot_T ry rx).

(** [x.coord -= v], [x.coord += v]: the array is updated in place and the
    attribute is bound again to the same array. *)
Definition coord_isub (x : loc) (v : vec3) : M unit :=
  a <- get_coord x ;; isub a v ;;; set_coord x a.

Definition coord_iadd (x : loc) (v : vec3) : M unit :=
  a <- get_coord x ;; iadd a v ;;; set_coord x a.

(** [x.coord = np.dot(x.coord, m)]: the attribute is bound to a new array. *)
Definition coord_set_dot (x : loc) (m : mat3) : M unit :=
  a <- get_coord x ;; b <- np_dot a m ;; set_coord x b.

(** Modelled from the spec: AtomArray.copy is the copy-construction that
    duplicates a coordinate set for independent mutation: a new object with
    the same annotations and a new coordinate array with the same contents. *)
Definition copy (x : loc) : M loc :=
  o <- as_AtomArray x "copy" ;;
  rows <- as_ndarray (coord o) ;;
  a <- alloc (CNdarray rows) ;;
  alloc (CAtomArray (mkAtomArray a (atom_name o) (annot o))).

(** Modelled from the spec: geometry.centroid, the arithmetic mean position
    of the coordinates of a structure, as a (3,) value. *)
Definition centroid (x : loc) : M vec3 :=
  a <- get_coord x ;; rows <- as_ndarray a ;; ret (mean rows).

(** Modelled from the spec: iterating an AtomArrayStack yields its member
    structures in stack order. *)
Definition iter_stack (x : loc) : M (list loc) :=
  c <- load x ;;
  match c with
  | Some (CAtomArrayStack models) => ret models
  | _ => raise (Exception "TypeError" "object is not iterable")
  end.

(** Modelled from the spec: atoms.stack collects a list of structures into
    a new AtomArrayStack, preserving their order. *)
Definition stack (arrays : list loc) : M loc :=
  alloc (CAtomArrayStack arrays).

(** The arrays that reach the two-subscript update [a[-1,:] *= k]. *)
Inductive small_array :=
| Array1D (v : vec3)
| Array2D (m : mat3).

(** [a[-1,:] *= k]: two subscripts on a one-dimensional array raise
    IndexError; on a (3,3) array the last row is scaled. *)
Definition imul_last_row (a : small_array) (k : Q) : M small_array :=
  match a with
  | Array1D _ => raise (Exception "IndexError" "too many indices for array")
  | Array2D (r1, r2, (x, y, z)) =>
      ret (Array2D (r1, r2, (x * k, y * k, z * k)%Q))
  end.

(** The transformation tuple: translation, rotation, translation. *)
Definition transformation : Type := vec3 * mat3 * vec3.

(** What [superimpose] hands back. *)
Inductive sup_result :=
| Single (fitted : loc) (t : transformation)
| Stacked (fitted : loc) (ts : list transformation)
| PyNone.

Section Superimpose.

(** [np.linalg.svd] of a (3,3) array: it returns [(u, s, vh)] where [u] and
    [vh] are (3,3) and [s] is the one-dimensional array of singular values.
    The routine belongs to numpy and is a parameter of the development. *)
Variable svd : mat3 -> mat3 * vec3 * mat3.

(** ** [_superimpose] *)

Definition _superimpose (fixed mobile : loc) (ca_only : bool)
  : M (option (loc * transformation)) :=
  ty <- type_ mobile ;;
  if decide (ty = TAtomArray) then
    mob_centroid <- centroid mobile ;;
    fix_centroid <- centroid fixed ;;
    centered <-
      (if ca_only then
         mc <- get_coord mobile ;;
         mn <- get_atom_name mobile ;;
         mob_centered <- getitem_mask mc (eq_mask mn " CA ") ;;
         fc <- get_coord fixed ;;
         fn <- get_atom_name fixed ;;
         fix_centered <- getitem_mask fc (eq_mask fn " CA ") ;;
         ret (mob_centered, fix_centered)
       else
         mc <- get_coord mobile ;;
         mob_centered <- np_copy mc ;;
         fc <- get_coord fixed ;;
         fix_centered <- np_copy fc ;;
         ret (mob_centered, fix_centered)) ;;
    let mob_centered := centered.1 in
    let fix_centered := centered.2 in
    lm <- len mob_centered ;;
    lf <- len fix_centered ;;
    if negb (Nat.eqb lm lf) then
      raise_class "BadStructureException"
        "The mobile and fixed array have different amount of atoms"
    else
      isub mob_centered mob_centroid ;;;
      isub fix_centered fix_centroid ;;;
      let y := mob_centered in
      let x := fix_centered in
      cov <- np_dot_T y x ;;
      let '(v, s, w) := svd cov in
      let rotation := mmul w (mT v) in
      sv <-
        (if Qltb (det v * det w) 0 then
           s' <- imul_last_row (Array1D s) (-1) ;;
           ret (s', neg_last_col v)
         else ret (Array1D s, v)) ;;
      let v := sv.2 in
      let rotation := mmul v w in
      fitted_subject <- copy mobile ;;
      coord_isub fitted_subject mob_centroid ;;;
      coord_set_dot fitted_subject rotation ;;;
      coord_iadd fitted_subject fix_centroid ;;;
      ret (Some (fitted_subject, (vneg mob_centroid, rotation, fix_centroid)))
  else ret None.

(** ** [superimpose] *)

(** The body of [for mobile in mobile: ...], over the members still to visit;
    unpacking the result of [_superimpose] fails when it is [None]. *)
Fixpoint superimpose_loop (fixed : loc) (ca_only : bool) (models : list loc)
    (fitted_subjects : list loc) (transformations : list transformation)
  : M (list loc * list transformation) :=
  match models with
  | [] => ret (fitted_subjects, transformations)
  | mobile :: rest =>
      r <- _superimpose fixed mobile ca_only ;;
      match r with
      | None =>
          raise (Exception "TypeError" "cannot unpack non-iterable NoneType object")
      | Some (fitted_subject, transformation) =>
          superimpose_loop fixed ca_only rest
            (fitted_subjects ++ [fitted_subject])
            (transformations ++ [transformation])
      end
  end.

Definition superimpose (fixed mobile : loc) (ca_only : bool) : M sup_result :=
  tf <- type_ fixed ;;
  if decide (tf <> TAtomArray) then
    raise_class "ValueError" "Reference must be AtomArray"
  else
    tm <- type_ mobile ;;
    if decide (tm = TAtomArray) then
      r <- _superimpose fixed mobile ca_only ;;
      ret (match r with Some (f, t) => Single f t | None => PyNone end)
    else if decide (tm = TAtomArrayStack) then
      models <- iter_stack mobile ;;
      ft <- superimpose_loop fixed ca_only models [] [] ;;
      fitted_subjects <- stack ft.1 ;;
      ret (Stacked fitted_subjects ft.2)
    else
      raise_class "ValueError" "Reference must be AtomArray".

End Superimpose.

(** ** [apply_superimposition] *)

(** The body builds [transformed] and ends without a [return] statement, so
    the call evaluates to [None]. *)
Definition apply_superimposition (atoms : loc) (transformation : transformation)
  : M (option loc) :=
  let '(t0, t1, t2) := transformation in
  transformed <- copy atoms ;;
  coord_iadd transformed t0 ;;;
  coord_set_dot transformed t1 ;;;
  coord_iadd transformed t2 ;;;
  ret None.

(** ** Vocabulary of the statements *)

(** [x] is an AtomArray [o] whose coordinate array holds [rows]. *)
Definition holds (h : heap) (x : loc) (o : AtomArray) (rows : list vec3) : Prop :=
  h !! x = Some (CAtomArray o) /\ h !! coord o = Some (CNdarray rows).

(** A well-formed AtomArray: every annotation array is as long as the
    coordinate array. *)
Definition wf_atoms (o : AtomArray) (rows : list vec3) : Prop :=
  length (atom_name o) = length rows.

(** The value of the structure at [x]: its annotations and coordinates. *)
Definition content (h : heap) (x : loc)
  : option (list string * list (string * list string) * list vec3) :=
  match h !! x with
  | Some (CAtomArray o) =>
      match h !! coord o with
      | Some (CNdarray rows) => Some (atom_name o, annot o, rows)
      | _ => None
      end
  | _ => None
  end.

(** [x] is a well-formed AtomArray of the store. *)
Definition wf_structure (h : heap) (x : loc) : Prop :=
  exists o rows, holds h x o rows /\ wf_atoms o rows.

(** The point set that enters the fit: the " CA " rows, or all rows. *)
Definition reduced (ca_only : bool) (o : AtomArray) (rows : list vec3) : list vec3 :=
  if ca_only then mask_select rows (eq_mask (atom_name o) " CA ") else rows.

Definition center (rows : list vec3) (c : vec3) : list vec3 :=
  map (fun p => vsub p c) rows.

Definition uncenter (rows : list vec3) (c : vec3) : list vec3 :=
  map (fun p => vadd p c) rows.

(** The three ways one run of [_superimpose] on two AtomArrays ends, with the
    arrays it leaves in the store. *)
Inductive outcome :=
| Mismatch (ysel xsel : list vec3)
| Reflected (y x : list vec3)
| Fitted (y x moved fitted : list vec3) (t : transformation).

Definition name_error (cls : string) : exn :=
  Exception "NameError" (String.append "name '" (String.append cls "' is not defined")).

Definition index_error_1d : exn :=
  Exception "IndexError" "too many indices for array".

Definition value_error : exn :=
  Exception "ValueError" "Reference must be AtomArray".

Section Summary.

Variable svd : mat3 -> mat3 * vec3 * mat3.

(** Value-level summary of [_superimpose fixed mobile ca_only] for a fixed
    structure [(fo, fr)] and a mobile structure [(mo, mr)]; lemma
    [_superimpose_run] proves that the code computes exactly this. *)
Definition kabsch (ca_only : bool) (fo : AtomArray) (fr : list vec3)
    (mo : AtomArray) (mr : list vec3) : outcome :=
  let mob_centroid := mean mr in
  let fix_centroid := mean fr in
  let ysel := reduced ca_only mo mr in
  let xsel := reduced ca_only fo fr in
  if negb (Nat.eqb (length ysel) (length xsel)) then Mismatch ysel xsel
  else
    let y := center ysel mob_centroid in
    let x := center xsel fix_centroid in
    let '(v, s, w) := svd (dot_T y x) in
    if Qltb (det v * det w) 0 then Reflected y x
    else
      let rotation := mmul v w in
      let moved := center mr mob_centroid in
      Fitted y x moved (uncenter (dot_rows moved rotation) fix_centroid)
        (vneg mob_centroid, rotation, fix_centroid).

End Summary.

(** What the run returns when the store had [n] cells before it. *)
Definition outcome_result (n : nat) (out : outcome)
  : result (option (loc * transformation)) :=
  match out with
  | Mismatch _ _ => Raise (name_error "BadStructureException")
  | Reflected _ _ => Raise index_error_1d
  | Fitted _ _ _ _ t => Ok (Some (n + 3, t))
  end.

(** The cells the run appends to a store of [n] cells. *)
Definition outcome_cells (n : nat) (mo : AtomArray) (out : outcome) : list cell :=
  match out with
  | Mismatch ysel xsel => [CNdarray ysel; CNdarray xsel]
  | Reflected y x => [CNdarray y; CNdarray x]
  | Fitted y x moved fitted _ =>
      [CNdarray y; CNdarray x; CNdarray moved;
       CAtomArray (mkAtomArray (n + 4) (atom_name mo) (annot mo));
       CNdarray fitted]
  end.

(** [runs m h r h']: started in store [h], [m] ends with result [r] in
    store [h']. *)
Definition runs {A} (m : M A) (h : heap) (r : result A) (h' : heap) : Prop :=
  m h = (r, h').

(** The result of [superimpose] on a single mobile structure, from the
    result of [_superimpose]. *)
Definition single_result (r : result (option (loc * transformation)))
  : result sup_result :=
  match r with
  | Ok (Some (f, t)) => Ok (Single f t)
  | Ok None => Ok PyNone
  | Raise e => Raise e
  end.

(** The call hands back no structure: it returns [None] or raises. *)
Definition returns_nothing {A} (m : M (option A)) : Prop :=
  forall h, (m h).1 = Ok None \/ exists e, (m h).1 = Raise e.

(** *** Freshness *)

(** The references held by a cell all point at or above [n]. *)
Definition cell_above (n : nat) (c : cell) : Prop :=
  match c with
  | CAtomArray o => n <= coord o
  | CAtomArrayStack models => Forall (fun m => n <= m) models
  | _ => True
  end.

(** Every object stored at or above [n] refers only to cells at or above
    [n]: what a call allocates does not point back into the caller's store. *)
Definition closed_above (n : nat) (h : heap) : Prop :=
  n <= length h /\
  forall l c, n <= l -> h !! l = Some c -> cell_above n c.

(** [m] leaves the first [n] cells of the store alone, keeps the cells above
    closed, and returns values that satisfy [Q]. *)
Definition preserves {A} (n : nat) (m : M A) (Q : A -> Prop) : Prop :=
  forall h, closed_above n h ->
    closed_above n (m h).2 /\
    take n (m h).2 = take n h /\
    forall a, (m h).1 = Ok a -> Q a.

Definition fresh_result (n : nat) (r : sup_result) : Prop :=
  match r with
  | Single f _ => n <= f
  | Stacked f _ => n <= f
  | PyNone => True
  end.

(** The structure at [f] was made after the store had [n] cells, and so was
    its coordinate array. *)
Definition fresh_atoms (n : nat) (h : heap) (f : loc) : Prop :=
  n <= f /\ forall o, h !! f = Some (CAtomArray o) -> n <= coord o.

(** Everything [superimpose] hands back was made by the call: the fitted
    structure, or the fitted stack and each of its members. *)
Definition fresh_output (n : nat) (h : heap) (r : sup_result) : Prop :=
  match r with
  | Single f _ => fresh_atoms n h f
  | Stacked st _ =>
      n <= st /\
      forall models, h !! st = Some (CAtomArrayStack models) ->
        Forall (fresh_atoms n h) models
  | PyNone => True
  end.

(** *** Exact linear algebra *)

Definition veq (a b : vec3) : Prop :=
  let '(a1, a2, a3) := a in
  let '(b1, b2, b3) := b in
  (a1 == b1 /\ a2 == b2 /\ a3 == b3)%Q.

Definition meq (a b : mat3) : Prop :=
  let '(a1, a2, a3) := a in
  let '(b1, b2, b3) := b in
  veq a1 b1 /\ veq a2 b2 /\ veq a3 b3.

Definition diag (s : vec3) : mat3 :=
  let '(s1, s2, s3) := s in ((s1, 0, 0), (0, s2, 0), (0, 0, s3))%Q.

(** [(u, s, vh)] is a singular value decomposition of [c]: [u] and [vh] are
    orthogonal, the singular values are non-negative and in descending
    order, and [c = u diag(s) vh]. *)
Definition is_svd (c : mat3) (usv : mat3 * vec3 * mat3) : Prop :=
  let '(u, s, vh) := usv in
  let '(s1, s2, s3) := s in
  meq (mmul (mT u) u) midentity /\
  meq (mmul vh (mT vh)) midentity /\
  (0 <= s3 /\ s3 <= s2 /\ s2 <= s1)%Q /\
  meq (mmul (mmul u (diag s)) vh) c.

(** ** Sample data *)

Definition sgn (q : Q) : Q := if Qltb q 0 then (-1)%Q else 1%Q.

(** A decomposition routine for diagonal matrices: [u] is the identity, [s]
    holds the absolute values and [vh] the signs of the diagonal. *)
Definition svd_diag (c : mat3) : mat3 * vec3 * mat3 :=
  let '((a, _, _), (_, b, _), (_, _, d)) := c in
  (midentity, (Qabs a, Qabs b, Qabs d),
   ((sgn a, 0, 0), (0, sgn b, 0), (0, 0, sgn d))%Q).

Definition ca6 : list string := [" CA "; " CA "; " CA "; " CA "; " CA "; " CA "].

(** Six points on the coordinate axes, and their mirror image in the
    xy-plane. *)
Definition octa : list vec3 :=
  [(1, 0, 0); (-1, 0, 0); (0, 1, 0); (0, -1, 0); (0, 0, 1); (0, 0, -1)]%Q.

Definition octa_mirrored : list vec3 :=
  [(1, 0, 0); (-1, 0, 0); (0, 1, 0); (0, -1, 0); (0, 0, -1); (0, 0, 1)]%Q.

Definition mirror_heap : heap :=
  [CNdarray octa; CAtomArray (mkAtomArray 0%nat ca6 []);
   CNdarray octa_mirrored; CAtomArray (mkAtomArray 2%nat ca6 [])].

(** A structure with two " CA " atoms and one " N  " atom, whose centroid
    (0,1,0) differs from the centroid (0,0,0) of its " CA " atoms; location
    4 holds an AtomArrayStack of two such models, location 5 an object that
    is neither an AtomArray nor a stack, and location 7 a structure with a
    single " CA " atom. *)
Definition tri : list vec3 := [(1, 0, 0); (-1, 0, 0); (0, 3, 0)]%Q.

Definition tri_names : list string := [" CA "; " CA "; " N  "].

Definition tri_annot : list (string * list string) :=
  [("res_name", ["ALA"; "GLY"; "GLY"])].

Definition tri_heap : heap :=
  [CNdarray tri; CAtomArray (mkAtomArray 0%nat tri_names tri_annot);
   CNdarray tri; CAtomArray (mkAtomArray 2%nat tri_names tri_annot);
   CAtomArrayStack [3%nat; 1%nat]; CObject;
   CNdarray [(2, 0, 0)%Q]; CAtomArray (mkAtomArray 6%nat [" CA "] [])].

(** Two structures without any " CA " atom and of different sizes. *)
Definition noca_heap : heap :=
  [CNdarray [(1, 0, 0); (0, 1, 0)]%Q;
   CAtomArray (mkAtomArray 0%nat [" N  "; " C  "] []);
   CNdarray [(0, 0, 1)%Q];
   CAtomArray (mkAtomArray 2%nat [" O  "] [])].

(** *** Quantities of the self-alignment argument *)




(** *** Further sample data *)


(** Two structures with the same six " CA " atoms and one further atom
    each, at different places: the " CA " atoms coincide, the centroids of
    all atoms are (2,0,0) for the structure at location 1 and (1,0,0) for
    the one at location 3. *)
Definition ca6_n : list string := ca6 ++ [" N  "].

Definition shift_heap : heap :=
  [CNdarray (octa ++ [(14, 0, 0)%Q]); CAtomArray (mkAtomArray 0%nat ca6_n []);
   CNdarray (octa ++ [(7, 0, 0)%Q]); CAtomArray (mkAtomArray 2%nat ca6_n [])].

(** * The BLAST web client (application/blast/online.py) *)

(** ** Text operations

    A Python [str] is modelled by [string]; its characters are the code
    points below 256. *)

Definition LF : Ascii.ascii := "010"%char.

(** [needle in s] *)
Fixpoint contains (needle s : string) : bool :=
  String.prefix needle s ||
  match s with
  | EmptyString => false
  | String _ s' => contains needle s'
  end.

(** [s.split(sep)] for a separator of one character: the pieces between
    the occurrences of [sep]; never an empty list. *)
Fixpoint split_on (sep : Ascii.ascii) (s : string) : list string :=
  match s with
  | EmptyString => [EmptyString]
  | String c s' =>
      if Ascii.eqb c sep then EmptyString :: split_on sep s'
      else match split_on sep s' with
           | [] => [String c EmptyString]
           | w :: ws => String c w :: ws
           end
  end.

(** The characters [str.strip()] removes: the code points below 256 for
    which [str.isspace] holds. *)
Definition is_space (c : Ascii.ascii) : bool :=
  let n := Ascii.nat_of_ascii c in
  (Nat.leb 9 n && Nat.leb n 13) || (Nat.leb 28 n && Nat.leb n 32)
  || Nat.eqb n 133 || Nat.eqb n 160.

Fixpoint lstrip (s : string) : string :=
  match s with
  | EmptyString => EmptyString
  | String c s' => if is_space c then lstrip s' else s
  end.

Fixpoint rstrip (s : string) : string :=
  match s with
  | EmptyString => EmptyString
  | String c s' =>
      match rstrip s' with
      | EmptyString => if is_space c then EmptyString else String c EmptyString
      | r => String c r
      end
  end.

(** [s.strip()] *)
Definition strip (s : string) : string := rstrip (lstrip s).

(** ** [BlastOnline._get_info] *)

Definition list_index_error : exn :=
  Exception "IndexError" "list index out of range".

(** The [for] loop of [_get_info] over the lines still to read, with the
    loop state [in_info_block] and [info_dict]. *)
Fixpoint _get_info_loop (lines : list string) (in_info_block : bool)
    (info_dict : gmap string string) : result (gmap string string) :=
  match lines with
  | [] => Ok info_dict
  | line :: rest =>
      if contains "QBlastInfoBegin" line then
        _get_info_loop rest true info_dict
      else if contains "QBlastInfoEnd" line then
        _get_info_loop rest false info_dict
      else if in_info_block then
        let pair := split_on "="%char line in
        match pair !! 1%nat, pair !! 0%nat with
        | Some v, Some k =>
            _get_info_loop rest in_info_block (<[strip k := strip v]> info_dict)
        | _, _ => Raise list_index_error
        end
      else _get_info_loop rest in_info_block info_dict
  end.

Definition _get_info (text : string) : result (gmap string string) :=
  let lines := split_on LF text in
  _get_info_loop lines false ∅.

(** *** Vocabulary *)

(** The text whose lines are [lines]. *)
Definition unlines (lines : list string) : string :=
  String.concat (String LF EmptyString) lines.

Definition no_char (c : Ascii.ascii) (s : string) : Prop :=
  ~ In c (String.list_ascii_of_string s).

(** A line that is no block marker. *)
Definition plain_line (line : string) : Prop :=
  contains "QBlastInfoBegin" line = false /\
  contains "QBlastInfoEnd" line = false /\
  no_char LF line.

(** Neither leading nor trailing whitespace. *)
Definition trimmed (s : string) : Prop := lstrip s = s /\ rstrip s = s.

(** One line of an info block, as the server writes it: indented, with
    blanks around the equals sign. *)
Definition info_line (kv : string * string) : string :=
  "    " +:+ kv.1 +:+ " = " +:+ kv.2.

(** A key or value that survives a line of the block: trimmed and free of
    equals signs. *)
Definition field_ok (s : string) : Prop :=
  trimmed s /\ no_char "="%char s.

(** An info block with the given entries. *)
Definition info_block (kvs : list (string * string)) : list string :=
  ["<!--QBlastInfoBegin"] ++ map info_line kvs ++ ["QBlastInfoEnd"; "-->"].

(** An entry that can be written as a line of a block. *)
Definition entry_ok (kv : string * string) : Prop :=
  field_ok kv.1 /\ field_ok kv.2 /\ plain_line (info_line kv).

(** [info_dict[k] = v] for each entry in turn. *)
Definition assign_all (d : gmap string string) (kvs : list (string * string))
  : gmap string string :=
  foldl (fun d kv => <[kv.1 := kv.2]> d) d kvs.

(** * The RCSB download client (database/rcsb/download.py) *)

(** ** The world outside the module

    [fetch] talks to the file system ([os], [open]), to the network
    ([requests]) and to the terminal ([print]).  The state of the file
    system is an abstract type with the operations the code uses; the
    server is a function from requests to responses (a request that gets no
    response at all is not modelled). *)

(** [requests.get(url, params=...)] *)
Record request := Request {
  req_url : string;
  req_params : list (string * string)
}.

(** The response object: [r.text] and [r.content]. *)
Record response := Response {
  resp_text : string;
  resp_content : string
}.

(** What [fetch] collects: a path, or a file-like object holding the text or
    the bytes. *)
Inductive file_obj :=
| FilePath (path : string)
| StringIO (text : string)
| BytesIO (bytes : string)
| NoFile.                      (* [None] *)

(** The [pdb_ids] argument: a single [str], or an iterable of them. *)
Inductive pdb_ids :=
| IdStr (id : string)
| IdList (ids : list string).

Inductive fetch_result :=
| OneFile (f : file_obj)
| FileList (fs : list file_obj).

Record world (fs : Type) := World {
  w_fs : fs;
  w_stdout : list string;
  w_requests : list request
}.
Arguments World {fs} _ _ _.
Arguments w_fs {fs} _.
Arguments w_stdout {fs} _.
Arguments w_requests {fs} _.

(** The world after the requests [rs] have been sent. *)
Definition logged {fs} (w : world fs) (rs : list request) : world fs :=
  World (w_fs w) (w_stdout w) (w_requests w ++ rs).

(** The world with another state of the file system. *)
Definition with_fs {fs} (w : world fs) (s : fs) : world fs :=
  World s (w_stdout w) (w_requests w).

Definition IO (W A : Type) : Type := W -> result A * W.

Definition io_ret {W A} (a : A) : IO W A := fun w => (Ok a, w).

Definition io_raise {W A} (e : exn) : IO W A := fun w => (Raise e, w).

Definition io_bind {W A B} (m : IO W A) (k : A -> IO W B) : IO W B :=
  fun w => match m w with
           | (Ok a, w') => k a w'
           | (Raise e, w') => (Raise e, w')
           end.

Notation "x <~ m ;; k" := (io_bind m (fun x => k))
  (at level 100, m at next level, right associativity).
Notation "m ;;~ k" := (io_bind m (fun _ => k))
  (at level 100, right associativity).

Definition _standard_url : string := "https://files.rcsb.org/download/".
Definition _mmtf_url : string := "https://mmtf.rcsb.org/v1.0/full/".
Definition _fasta_url : string :=
  "https://www.rcsb.org/pdb/download/downloadFastaFiles.do".

Definition CR : Ascii.ascii := "013"%char.

(** ** [_assert_valid_file] *)

Definition request_error (pdb_id : string) : exn :=
  Exception "RequestError" ("PDB ID " +:+ pdb_id +:+ " is invalid").

Definition _assert_valid_file {W} (response_text pdb_id : string) : IO W unit :=
  if contains "404 Not Found" response_text
     || contains "<title>RCSB Protein Data Bank Error Page</title>" response_text
  then io_raise (request_error pdb_id)
  else io_ret tt.

Definition format_error (format : string) : exn :=
  Exception "ValueError" ("Format '" +:+ format +:+ "' is not supported").

Section Fetch.

Variable fs : Type.

(** [os.path.isdir], [os.path.isfile], [os.path.join] *)
Variable isdir : fs -> string -> bool.
Variable isfile : fs -> string -> bool.
Variable path_join : string -> string -> string.

(** [os.makedirs(path)]: the new state, or the exception of the system. *)
Variable makedirs : fs -> string -> result fs.

(** [with open(file, mode) as f: f.write(content)], for the modes "w+"
    ([binary] false) and "wb+" ([binary] true). *)
Variable write_file : fs -> string -> bool -> string -> result fs.

(** The server behind [requests.get]. *)
Variable server : request -> response.

Definition os_isdir (path : string) : IO (world fs) bool :=
  fun w => (Ok (isdir (w_fs w) path), w).

Definition os_isfile (path : string) : IO (world fs) bool :=
  fun w => (Ok (isfile (w_fs w) path), w).

Definition os_makedirs (path : string) : IO (world fs) unit :=
  fun w => match makedirs (w_fs w) path with
           | Ok s => (Ok tt, World s (w_stdout w) (w_requests w))
           | Raise e => (Raise e, w)
           end.

Definition open_write (path : string) (binary : bool) (content : string)
  : IO (world fs) unit :=
  fun w => match write_file (w_fs w) path binary content with
           | Ok s => (Ok tt, World s (w_stdout w) (w_requests w))
           | Raise e => (Raise e, w)
           end.

Definition requests_get (url : string) (params : list (string * string))
  : IO (world fs) response :=
  fun w => (Ok (server (Request url params)),
            World (w_fs w) (w_stdout w) (w_requests w ++ [Request url params])).

(** [print(s, end=e)] *)
Definition print (s e : string) : IO (world fs) unit :=
  fun w => (Ok tt, World (w_fs w) (w_stdout w ++ [s +:+ e]) (w_requests w)).

(** The value of the variable [file] before a download: a path or [None]. *)
Definition file_of (file : option string) : file_obj :=
  match file with
  | Some path => FilePath path
  | None => NoFile
  end.

(** Store the downloaded [content]: in a file-like object when [file] is
    [None], else in the file at that path. *)
Definition store_content (file : option string) (binary : bool)
    (content : string) : IO (world fs) file_obj :=
  match file with
  | None => io_ret (if binary then BytesIO content else StringIO content)
  | Some path => open_write path binary content ;;~ io_ret (FilePath path)
  end.

(** ** [fetch] *)

(** The body of [for i, id in enumerate(pdb_ids)], over the ids still to
    visit; [n] is [len(pdb_ids)]. *)
Fixpoint fetch_loop (n : nat) (format : string) (target_path : option string)
    (overwrite verbose : bool) (i : nat) (ids : list string)
    (files : list file_obj) : IO (world fs) (list file_obj) :=
  match ids with
  | [] => io_ret files
  | id :: rest =>
      (if verbose then
         print ("Fetching file " +:+ pretty (i + 1) +:+ " / " +:+ pretty n
                +:+ " (" +:+ id +:+ ")...") (String CR "")
       else io_ret tt) ;;~
      let file :=
        match target_path with
        | Some dir => Some (path_join dir (id +:+ "." +:+ format))
        | None => None
        end in
      download <~
        (match file with
         | None => io_ret true
         | Some path =>
             exists_ <~ os_isfile path ;; io_ret (negb exists_ || overwrite)
         end) ;;
      file <~
        (if download : bool then
           if String.eqb format "pdb" then
             r <~ requests_get (_standard_url +:+ id +:+ ".pdb") [] ;;
             let content := resp_text r in
             _assert_valid_file content id ;;~
             store_content file false content
           else if bool_decide (format ∈ ["cif"; "mmcif"; "pdbx"]) then
             r <~ requests_get (_standard_url +:+ id +:+ ".cif") [] ;;
             let content := resp_text r in
             _assert_valid_file content id ;;~
             store_content file false content
           else if String.eqb format "mmtf" then
             r <~ requests_get (_mmtf_url +:+ id) [] ;;
             let content := resp_content r in
             _assert_valid_file (resp_text r) id ;;~
             store_content file true content
           else if String.eqb format "fasta" then
             r <~ requests_get _fasta_url
                    [("structureIdList", id);
                     ("compressionType", "uncompressed")] ;;
             let content := resp_text r in
             _assert_valid_file content id ;;~
             store_content file false content
           else io_raise (format_error format)
         else io_ret (file_of file)) ;;
      fetch_loop n format target_path overwrite verbose (i + 1) rest
        (files ++ [file])
  end.

Definition fetch (ids : pdb_ids) (format : string)
    (target_path : option string) (overwrite verbose : bool)
  : IO (world fs) fetch_result :=
  let '(id_list, single_element) :=
    match ids with
    | IdStr id => ([id], true)
    | IdList l => (l, false)
    end in
  (match target_path with
   | Some dir =>
       d <~ os_isdir dir ;;
       if negb d then os_makedirs dir else io_ret tt
   | None => io_ret tt
   end) ;;~
  files <~ fetch_loop (length id_list) format target_path overwrite verbose
             0 id_list [] ;;
  (if verbose then print (String LF "Done") (String LF "") else io_ret tt) ;;~
  if single_element then
    match files with
    | f :: _ => io_ret (OneFile f)
    | [] => io_raise list_index_error
    end
  else io_ret (FileList files).

(** *** Vocabulary *)

(** The writes of a run that downloads every id of [ids] into [dir]. *)
Fixpoint write_all (s : fs) (dir format : string) (ids : list string)
    (contents : string -> string) (binary : bool) : result fs :=
  match ids with
  | [] => Ok s
  | id :: rest =>
      match write_file s (path_join dir (id +:+ "." +:+ format)) binary
              (contents id) with
      | Ok s' => write_all s' dir format rest contents binary
      | Raise e => Raise e
      end
  end.

End Fetch.

(** The formats [fetch] knows. *)
Definition supported (format : string) : Prop :=
  format ∈ ["pdb"; "cif"; "mmcif"; "pdbx"; "mmtf"; "fasta"].

(** The request sent for one id in a supported format. *)
Definition request_for (format id : string) : request :=
  if String.eqb format "pdb" then
    Request (_standard_url +:+ id +:+ ".pdb") []
  else if String.eqb format "mmtf" then
    Request (_mmtf_url +:+ id) []
  else if String.eqb format "fasta" then
    Request _fasta_url
      [("structureIdList", id); ("compressionType", "uncompressed")]
  else Request (_standard_url +:+ id +:+ ".cif") [].

Definition is_binary (format : string) : bool := String.eqb format "mmtf".

(** The part of the response that is kept. *)
Definition payload (format : string) (r : response) : string :=
  if is_binary format then resp_content r else resp_text r.

(** The file-like object made for a download that is not written to disk. *)
Definition in_memory (format : string) (r : response) : file_obj :=
  if is_binary format then BytesIO (resp_content r) else StringIO (resp_text r).

(** The response is not one of the two error pages. *)
Definition valid_response (r : response) : Prop :=
  contains "404 Not Found" (resp_text r) = false /\
  contains "<title>RCSB Protein Data Bank Error Page</title>" (resp_text r)
  = false.

(** The world after [lines] have been printed. *)
Definition said {fs} (w : world fs) (lines : list string) : world fs :=
  World (w_fs w) (w_stdout w ++ lines) (w_requests w).

(** The progress line for the id at position [i] (counted from 0) of [n]:
    the text of the f-string followed by the carriage return of [end]. *)
Definition progress_line (n i : nat) (id : string) : string :=
  ("Fetching file " +:+ pretty (i + 1) +:+ " / " +:+ pretty n
   +:+ " (" +:+ id +:+ ")...") +:+ String CR "".

Fixpoint progress_lines (n i : nat) (ids : list string) : list string :=
  match ids with
  | [] => []
  | id :: rest => progress_line n i id :: progress_lines n (i + 1) rest
  end.

(** What is printed while the loop visits [ids], the first of them at
    position [i]: one line per id when [verbose] is on, nothing otherwise. *)
Definition progress (verbose : bool) (n i : nat) (ids : list string)
  : list string :=
  if verbose then progress_lines n i ids else [].

(** [print("\nDone")] *)
Definition done_line : string := String LF "Done" +:+ String LF "".

(** Everything a call prints that visits all of [ids] and returns. *)
Definition output (verbose : bool) (ids : list string) : list string :=
  progress verbose (length ids) 0 ids ++ (if verbose then [done_line] else []).

(** ** Sample world: a flat file system and a small server *)

Record flat_fs := FlatFs {
  ff_dirs : list string;
  ff_files : list (string * string)
}.

Definition flat_isdir (s : flat_fs) (p : string) : bool :=
  bool_decide (p ∈ ff_dirs s).

Definition flat_isfile (s : flat_fs) (p : string) : bool :=
  bool_decide (p ∈ map fst (ff_files s)).

Definition flat_join (dir name : string) : string := dir +:+ "/" +:+ name.

Definition flat_makedirs (s : flat_fs) (p : string) : result flat_fs :=
  if flat_isfile s p then Raise (Exception "FileExistsError" p)
  else Ok (FlatFs (p :: ff_dirs s) (ff_files s)).

Definition flat_write (s : flat_fs) (p : string) (binary : bool)
    (content : string) : result flat_fs :=
  if flat_isdir s p then Raise (Exception "IsADirectoryError" p)
  else Ok (FlatFs (ff_dirs s) ((p, content) :: ff_files s)).

(** A server that knows the entry 1l2y and answers everything else with
    the error page. *)
Definition sample_server (r : request) : response :=
  if contains "1l2y" (req_url r)
     || bool_decide (("structureIdList", "1l2y") ∈ req_params r)
  then Response "HEADER 1L2Y" "bytes-of-1l2y"
  else Response "404 Not Found" "".

Definition sample_world : world flat_fs :=
  World (FlatFs ["data"] [("data/1l2y.xyz", "old")]) [] [].

Definition sample_fetch :=
  fetch flat_fs flat_isdir flat_isfile flat_join flat_makedirs flat_write
    sample_server.

(** The call does not end with the value [None]. *)
Definition not_None {A} (r : result (option A)) : Prop :=
  match r with
  | Ok None => False
  | _ => True
  end.

Definition not_PyNone (r : result sup_result) : Prop :=
  match r with
  | Ok PyNone => False
  | _ => True
  end.

(** * Properties *)

(** ** Running the store operations *)

Section StoreRules.

Lemma lookup_new (h ext : heap) k : (h ++ ext) !! (length h + k) = ext !! k.
Proof. rewrite lookup_app_r by lia. f_equal. lia. Qed.

Lemma runs_ret {A} (a : A) h : runs (ret a) h (Ok a) h.
Proof. reflexivity. Qed.

Lemma runs_bind {A B} (m : M A) (k : A -> M B) h a h1 r h2 :
  runs m h (Ok a) h1 -> runs (k a) h1 r h2 -> runs (bind m k) h r h2.
Proof. unfold runs, bind. intros -> ->. reflexivity. Qed.

Lemma runs_bind_raise {A B} (m : M A) (k : A -> M B) h e h1 :
  runs m h (Raise e) h1 -> runs (bind m k) h (Raise e) h1.
Proof. unfold runs, bind. intros ->. reflexivity. Qed.

Lemma runs_type_ h x : runs (type_ x) h (Ok (type_of_cell (h !! x))) h.
Proof. reflexivity. Qed.

Lemma runs_as_AtomArray h x attr o :
  h !! x = Some (CAtomArray o) -> runs (as_AtomArray x attr) h (Ok o) h.
Proof. unfold runs, as_AtomArray, bind, load. intros ->. reflexivity. Qed.

Lemma runs_get_coord h x o :
  h !! x = Some (CAtomArray o) -> runs (get_coord x) h (Ok (coord o)) h.
Proof.
  intros Hx. eapply runs_bind; [apply runs_as_AtomArray, Hx | apply runs_ret].
Qed.

Lemma runs_get_atom_name h x o :
  h !! x = Some (CAtomArray o) -> runs (get_atom_name x) h (Ok (atom_name o)) h.
Proof.
  intros Hx. eapply runs_bind; [apply runs_as_AtomArray, Hx | apply runs_ret].
Qed.

Lemma runs_set_coord h x a o :
  h !! x = Some (CAtomArray o) ->
  runs (set_coord x a) h (Ok tt)
    (<[x := CAtomArray (mkAtomArray a (atom_name o) (annot o))]> h).
Proof.
  intros Hx. eapply runs_bind; [apply runs_as_AtomArray, Hx | reflexivity].
Qed.

Lemma runs_as_ndarray h a rows :
  h !! a = Some (CNdarray rows) -> runs (as_ndarray a) h (Ok rows) h.
Proof. unfold runs, as_ndarray, bind, load. intros ->. reflexivity. Qed.

Lemma runs_len h a rows :
  h !! a = Some (CNdarray rows) -> runs (len a) h (Ok (length rows)) h.
Proof.
  intros Ha. eapply runs_bind; [apply runs_as_ndarray, Ha | apply runs_ret].
Qed.

Lemma runs_np_copy h a rows :
  h !! a = Some (CNdarray rows) ->
  runs (np_copy a) h (Ok (length h)) (h ++ [CNdarray rows]).
Proof.
  intros Ha. eapply runs_bind; [apply runs_as_ndarray, Ha | reflexivity].
Qed.

Lemma runs_getitem_mask h a rows mask :
  h !! a = Some (CNdarray rows) -> length mask = length rows ->
  runs (getitem_mask a mask) h (Ok (length h))
    (h ++ [CNdarray (mask_select rows mask)]).
Proof.
  intros Ha Hlen. eapply runs_bind; [apply runs_as_ndarray, Ha |].
  rewrite Hlen, Nat.eqb_refl. reflexivity.
Qed.

Lemma runs_isub h a rows v :
  h !! a = Some (CNdarray rows) ->
  runs (isub a v) h (Ok tt) (<[a := CNdarray (center rows v)]> h).
Proof.
  intros Ha. eapply runs_bind; [apply runs_as_ndarray, Ha | reflexivity].
Qed.

Lemma runs_iadd h a rows v :
  h !! a = Some (CNdarray rows) ->
  runs (iadd a v) h (Ok tt) (<[a := CNdarray (uncenter rows v)]> h).
Proof.
  intros Ha. eapply runs_bind; [apply runs_as_ndarray, Ha | reflexivity].
Qed.

Lemma runs_np_dot h a rows m :
  h !! a = Some (CNdarray rows) ->
  runs (np_dot a m) h (Ok (length h)) (h ++ [CNdarray (dot_rows rows m)]).
Proof.
  intros Ha. eapply runs_bind; [apply runs_as_ndarray, Ha | reflexivity].
Qed.

Lemma runs_np_dot_T h y x ry rx :
  h !! y = Some (CNdarray ry) -> h !! x = Some (CNdarray rx) ->
  runs (np_dot_T y x) h (Ok (dot_T ry rx)) h.
Proof.
  intros Hy Hx. eapply runs_bind; [apply runs_as_ndarray, Hy |].
  eapply runs_bind; [apply runs_as_ndarray, Hx | apply runs_ret].
Qed.

Lemma runs_centroid h x o rows :
  holds h x o rows -> runs (centroid x) h (Ok (mean rows)) h.
Proof.
  intros [Hx Hc]. eapply runs_bind; [apply runs_get_coord, Hx |].
  eapply runs_bind; [apply runs_as_ndarray, Hc | apply runs_ret].
Qed.

Lemma runs_copy h x o rows :
  holds h x o rows ->
  runs (copy x) h (Ok (length h + 1))
    (h ++ [CNdarray rows;
           CAtomArray (mkAtomArray (length h) (atom_name o) (annot o))]).
Proof.
  intros [Hx Hc]. eapply runs_bind; [apply runs_as_AtomArray, Hx |].
  eapply runs_bind; [apply runs_as_ndarray, Hc |].
  unfold runs, bind, alloc. rewrite length_app, <- app_assoc. reflexivity.
Qed.

Lemma holds_neq h x o rows : holds h x o rows -> x <> coord o.
Proof. intros [Hx Hc] E. rewrite <- E in Hc. congruence. Qed.

Lemma runs_coord_isub h x o rows v :
  holds h x o rows ->
  runs (coord_isub x v) h (Ok tt) (<[coord o := CNdarray (center rows v)]> h).
Proof.
  intros Hh. pose proof (holds_neq _ _ _ _ Hh) as Hne. destruct Hh as [Hx Hc].
  eapply runs_bind; [apply runs_get_coord, Hx |].
  eapply runs_bind; [apply runs_isub, Hc |].
  unfold runs. erewrite runs_set_coord.
  2: { rewrite list_lookup_insert_ne by congruence. exact Hx. }
  f_equal. apply list_insert_id.
  rewrite list_lookup_insert_ne by congruence. rewrite Hx. by destruct o.
Qed.

Lemma runs_coord_iadd h x o rows v :
  holds h x o rows ->
  runs (coord_iadd x v) h (Ok tt) (<[coord o := CNdarray (uncenter rows v)]> h).
Proof.
  intros Hh. pose proof (holds_neq _ _ _ _ Hh) as Hne. destruct Hh as [Hx Hc].
  eapply runs_bind; [apply runs_get_coord, Hx |].
  eapply runs_bind; [apply runs_iadd, Hc |].
  unfold runs. erewrite runs_set_coord.
  2: { rewrite list_lookup_insert_ne by congruence. exact Hx. }
  f_equal. apply list_insert_id.
  rewrite list_lookup_insert_ne by congruence. rewrite Hx. by destruct o.
Qed.

Lemma runs_coord_set_dot h x o rows m :
  holds h x o rows ->
  runs (coord_set_dot x m) h (Ok tt)
    (<[x := CAtomArray (mkAtomArray (length h) (atom_name o) (annot o))]>
       (h ++ [CNdarray (dot_rows rows m)])).
Proof.
  intros [Hx Hc].
  eapply runs_bind; [apply runs_get_coord, Hx |].
  eapply runs_bind; [apply runs_np_dot, Hc |].
  apply runs_set_coord. by apply lookup_app_l_Some.
Qed.

End StoreRules.

(** ** One run of [_superimpose] *)

Lemma holds_app h ext x o rows : holds h x o rows -> holds (h ++ ext) x o rows.
Proof. intros [Hx Hc]. split; by apply lookup_app_l_Some. Qed.

Lemma holds_content h x o rows :
  holds h x o rows -> content h x = Some (atom_name o, annot o, rows).
Proof. intros [Hx Hc]. unfold content. by rewrite Hx, Hc. Qed.

(** Side conditions of the store rules on a store of the shape [h ++ ext]:
    a cell of [h] known from a hypothesis, or a cell of the explicit [ext]. *)
Ltac lk :=
  first [ eassumption
        | apply lookup_app_l_Some; eassumption
        | apply holds_app; eassumption
        | rewrite lookup_new; reflexivity ].

Ltac lk_new :=
  split; [ rewrite lookup_new; reflexivity
         | cbn [coord]; rewrite lookup_new; reflexivity ].

(** Bring the store back to the shape [h ++ ext] with [ext] explicit. *)
Ltac norm :=
  cbn [coord atom_name annot];
  rewrite <- ?app_assoc, ?length_app, <- ?Nat.add_assoc, ?insert_app_r;
  cbn [app length insert list_insert lookup list_lookup Nat.add coord atom_name annot].

Ltac step L := eapply runs_bind; [ eapply L; lk | ]; norm.

Ltac step_new L := eapply runs_bind; [ eapply L; lk_new | ]; norm.

Section Run.

Variable svd : mat3 -> mat3 * vec3 * mat3.

(** From the size check to the end of [_superimpose]. *)
Ltac after_selection :=
  cbn [fst snd];
  step runs_len; step runs_len;
  match goal with
  | |- context [negb (Nat.eqb ?a ?b)] => destruct (negb (Nat.eqb a b))
  end;
  [ reflexivity
  | step runs_isub; step runs_isub;
    (eapply runs_bind; [ eapply runs_np_dot_T; lk |]); norm;
    match goal with |- context [svd ?c] => destruct (svd c) as [[v s] w] end;
    match goal with
    | |- context [Qltb ?a ?b] => destruct (Qltb a b)
    end;
    [ reflexivity
    | (eapply runs_bind; [apply runs_ret |]); cbn [fst snd];
      step runs_copy;
      step_new runs_coord_isub;
      step_new runs_coord_set_dot;
      step_new runs_coord_iadd;
      reflexivity ] ].

Lemma _superimpose_run h fixed mobile ca fo fr mo mr :
  holds h fixed fo fr -> holds h mobile mo mr ->
  (ca = true -> wf_atoms fo fr /\ wf_atoms mo mr) ->
  runs (_superimpose svd fixed mobile ca) h
    (outcome_result (length h) (kabsch svd ca fo fr mo mr))
    (h ++ outcome_cells (length h) mo (kabsch svd ca fo fr mo mr)).
Proof.
  intros Hf Hm Hwf.
  pose proof (proj1 Hf) as Hfx. pose proof (proj2 Hf) as Hfc.
  pose proof (proj1 Hm) as Hmx. pose proof (proj2 Hm) as Hmc.
  rewrite <- (app_nil_r h) at 1.
  unfold _superimpose.
  eapply runs_bind; [apply runs_type_ |].
  rewrite (lookup_app_l_Some _ _ _ _ Hmx). cbn [type_of_cell].
  destruct (decide (TAtomArray = TAtomArray)) as [_|]; [|done].
  step runs_centroid. step runs_centroid.
  unfold kabsch, reduced.
  destruct ca.
  - destruct (Hwf eq_refl) as [Wf Wm]. unfold wf_atoms in Wf, Wm.
    eapply runs_bind.
    { step runs_get_coord. step runs_get_atom_name.
      eapply runs_bind;
        [ eapply runs_getitem_mask;
          [lk | by (unfold eq_mask; rewrite length_map)] |]; norm.
      step runs_get_coord. step runs_get_atom_name.
      eapply runs_bind;
        [ eapply runs_getitem_mask;
          [lk | by (unfold eq_mask; rewrite length_map)] |]; norm.
      apply runs_ret. }
    after_selection.
  - eapply runs_bind.
    { step runs_get_coord. step runs_np_copy.
      step runs_get_coord. step runs_np_copy.
      apply runs_ret. }
    after_selection.
Qed.

End Run.

(** ** [superimpose] on a single mobile structure *)

Section Single.

Variable svd : mat3 -> mat3 * vec3 * mat3.

Lemma runs_bind_ret {A B} (m : M A) (f : A -> B) h r h1 :
  runs m h r h1 ->
  runs (bind m (fun a => ret (f a))) h
    (match r with Ok a => Ok (f a) | Raise e => Raise e end) h1.
Proof. unfold runs, bind. intros ->. by destruct r. Qed.

Lemma superimpose_single_run h fixed mobile ca fo fr mo mr :
  holds h fixed fo fr -> holds h mobile mo mr ->
  (ca = true -> wf_atoms fo fr /\ wf_atoms mo mr) ->
  runs (superimpose svd fixed mobile ca) h
    (single_result (outcome_result (length h) (kabsch svd ca fo fr mo mr)))
    (h ++ outcome_cells (length h) mo (kabsch svd ca fo fr mo mr)).
Proof.
  intros Hf Hm Hwf. unfold superimpose.
  eapply runs_bind; [apply runs_type_ |].
  rewrite (proj1 Hf). cbn [type_of_cell].
  destruct (decide (TAtomArray <> TAtomArray)) as [|_]; [done|].
  eapply runs_bind; [apply runs_type_ |].
  rewrite (proj1 Hm). cbn [type_of_cell].
  destruct (decide (TAtomArray = TAtomArray)) as [_|]; [|done].
  pose proof (runs_bind_ret _
    (fun r => match r with Some (f, t) => Single f t | None => PyNone end)
    _ _ _ (_superimpose_run svd h fixed mobile ca fo fr mo mr Hf Hm Hwf)) as R.
  unfold runs in *. rewrite R. f_equal.
  by destruct (kabsch svd ca fo fr mo mr).
Qed.

(** A run is a function of the store it starts in. *)
Lemma runs_det {A} (m : M A) h r1 h1 r2 h2 :
  runs m h r1 h1 -> runs m h r2 h2 -> r1 = r2 /\ h1 = h2.
Proof. unfold runs. intros -> E. by inversion E. Qed.

End Single.

(** ** Claims *)

(** *** C6: wrong argument types *)

(** C6. A fixed argument that is an AtomArrayStack (or anything else than an
    AtomArray), and a mobile argument that is neither an AtomArray nor an
    AtomArrayStack, make [superimpose] raise
    ValueError("Reference must be AtomArray"), the input type error of this
    module; the store is untouched when it is raised, so no alignment work
    has been done. *)
Theorem superimpose_rejects_wrong_types svd (h : heap) fixed mobile ca :
  (forall models, h !! fixed = Some (CAtomArrayStack models) ->
     runs (superimpose svd fixed mobile ca) h (Raise value_error) h) /\
  (type_of_cell (h !! fixed) <> TAtomArray ->
     runs (superimpose svd fixed mobile ca) h (Raise value_error) h) /\
  (type_of_cell (h !! mobile) <> TAtomArray ->
   type_of_cell (h !! mobile) <> TAtomArrayStack ->
     runs (superimpose svd fixed mobile ca) h (Raise value_error) h).
Proof.
  assert (Hfix : type_of_cell (h !! fixed) <> TAtomArray ->
     runs (superimpose svd fixed mobile ca) h (Raise value_error) h).
  { intros Hty. unfold superimpose.
    eapply runs_bind; [apply runs_type_ |].
    destruct (decide (type_of_cell (h !! fixed) <> TAtomArray)); [|done].
    reflexivity. }
  split; [| split]; [| exact Hfix |].
  - intros models Hs. apply Hfix. by rewrite Hs.
  - intros Hna Hns.
    destruct (decide (type_of_cell (h !! fixed) = TAtomArray)) as [Hty|Hty];
      [| by apply Hfix].
    unfold superimpose.
    eapply runs_bind; [apply runs_type_ |].
    destruct (decide (type_of_cell (h !! fixed) <> TAtomArray)); [done|].
    eapply runs_bind; [apply runs_type_ |].
    destruct (decide (type_of_cell (h !! mobile) = TAtomArray)); [done|].
    destruct (decide (type_of_cell (h !! mobile) = TAtomArrayStack)); [done|].
    reflexivity.
Qed.

Lemma superimpose_rejects_wrong_types_witness :
  runs (superimpose svd_diag 4 1 true) tri_heap (Raise value_error) tri_heap /\
  runs (superimpose svd_diag 5 1 true) tri_heap (Raise value_error) tri_heap /\
  runs (superimpose svd_diag 1 5 true) tri_heap (Raise value_error) tri_heap.
Proof.
  split; [| split].
  - apply (proj1 (superimpose_rejects_wrong_types svd_diag tri_heap 4 1 true)
             [3; 1]).
    reflexivity.
  - apply (proj1 (proj2
             (superimpose_rejects_wrong_types svd_diag tri_heap 5 1 true))).
    simpl. discriminate.
  - apply (proj2 (proj2
             (superimpose_rejects_wrong_types svd_diag tri_heap 1 5 true)));
      simpl; discriminate.
Defined.

(** *** C4: size mismatch *)

(** C4 (what the code does).  When the point sets that enter the fit differ
    in size, the [raise BadStructureException(...)] statement is reached, but
    the name BadStructureException is bound nowhere in the module: the call
    ends with NameError, not with the structure mismatch error.  No result
    is returned, and the store only gained the two selected arrays. *)
Theorem size_mismatch_raises_NameError svd (h : heap) fixed mobile ca fo fr mo mr :
  holds h fixed fo fr -> holds h mobile mo mr ->
  (ca = true -> wf_atoms fo fr /\ wf_atoms mo mr) ->
  length (reduced ca mo mr) <> length (reduced ca fo fr) ->
  is_bound "BadStructureException" = false /\
  runs (superimpose svd fixed mobile ca) h
    (Raise (name_error "BadStructureException"))
    (h ++ [CNdarray (reduced ca mo mr); CNdarray (reduced ca fo fr)]).
Proof.
  intros Hf Hm Hwf Hne. split; [reflexivity|].
  pose proof (superimpose_single_run svd h fixed mobile ca fo fr mo mr Hf Hm Hwf) as R.
  unfold kabsch in R.
  apply Nat.eqb_neq in Hne. rewrite Hne in R. exact R.
Qed.

Lemma size_mismatch_raises_NameError_witness :
  is_bound "BadStructureException" = false /\
  runs (superimpose svd_diag 1 7 true) tri_heap
    (Raise (Exception "NameError" "name 'BadStructureException' is not defined"))
    (tri_heap ++ [CNdarray [(2, 0, 0)%Q]; CNdarray [(1, 0, 0); (-1, 0, 0)]%Q]).
Proof.
  apply (size_mismatch_raises_NameError svd_diag tri_heap 1 7 true
           (mkAtomArray 0 tri_names tri_annot) tri
           (mkAtomArray 6 [" CA "] []) [(2, 0, 0)%Q]).
  - split; reflexivity.
  - split; reflexivity.
  - intros _. split; reflexivity.
  - simpl. lia.
Defined.

(** *** C1: the reflection guard *)

(** A decomposition of a matrix with negative determinant always has
    [det u * det vh < 0]: mirrored inputs engage the guard whatever exact
    routine computes the decomposition. *)
Lemma det_mmul a b : (det (mmul a b) == det a * det b)%Q.
Proof.
  destruct a as [[[[a11 a12] a13] [[a21 a22] a23]] [[a31 a32] a33]].
  destruct b as [[[[b11 b12] b13] [[b21 b22] b23]] [[b31 b32] b33]].
  unfold det, mmul, vmat, mT, vdot. ring.
Qed.

Lemma det_diag s1 s2 s3 : (det (diag (s1, s2, s3)) == s1 * s2 * s3)%Q.
Proof. unfold det, diag. ring. Qed.

Lemma det_meq a b : meq a b -> (det a == det b)%Q.
Proof.
  destruct a as [[[[a11 a12] a13] [[a21 a22] a23]] [[a31 a32] a33]].
  destruct b as [[[[b11 b12] b13] [[b21 b22] b23]] [[b31 b32] b33]].
  unfold meq, veq, det.
  intros [[E1 [E2 E3]] [[E4 [E5 E6]] [E7 [E8 E9]]]].
  rewrite E1, E2, E3, E4, E5, E6, E7, E8, E9. reflexivity.
Qed.

Lemma svd_negative_det c u s vh :
  is_svd c (u, s, vh) -> (det c < 0)%Q -> (det u * det vh < 0)%Q.
Proof.
  destruct s as [[s1 s2] s3]. intros (_ & _ & (H3 & H2 & H1) & Hc) Hneg.
  apply det_meq in Hc. rewrite !det_mmul, det_diag in Hc.
  rewrite <- Hc in Hneg.
  assert (HP : (0 <= s1 * s2 * s3)%Q).
  { repeat apply Qmult_le_0_compat; lra. }
  destruct (Qlt_le_dec (det u * det vh) 0) as [Hlt|Hge]; [exact Hlt|].
  pose proof (Qmult_le_0_compat _ _ Hge HP) as Hprod.
  assert (E : (det u * (s1 * s2 * s3) * det vh == det u * det vh * (s1 * s2 * s3))%Q)
    by ring.
  rewrite E in Hneg. lra.
Qed.

Lemma det_mT m : (det (mT m) == det m)%Q.
Proof.
  destruct m as [[[[a11 a12] a13] [[a21 a22] a23]] [[a31 a32] a33]].
  unfold det, mT. ring.
Qed.

Lemma det_midentity : (det midentity == 1)%Q.
Proof. reflexivity. Qed.

(** With orthogonal factors and a non-negative product of determinants, the
    rotation [np.dot(v, w)] has determinant one: apart from the guarded
    branch, the returned matrix is a proper rotation. *)
Lemma rotation_proper_without_guard (v w : mat3) :
  meq (mmul (mT v) v) midentity -> meq (mmul w (mT w)) midentity ->
  Qltb (det v * det w) 0 = false ->
  (det (mmul v w) == 1)%Q.
Proof.
  intros Hv Hw G.
  apply det_meq in Hv, Hw.
  rewrite det_mmul, det_mT, det_midentity in Hv, Hw.
  rewrite det_mmul.
  assert (Hge : (0 <= det v * det w)%Q).
  { unfold Qltb in G. apply negb_false_iff in G. by apply Qle_bool_iff. }
  set (p := (det v * det w)%Q) in *.
  assert (Hsq : (p * p == 1)%Q).
  { unfold p.
    transitivity ((det v * det v) * (det w * det w))%Q; [ring|].
    rewrite Hv, Hw. reflexivity. }
  assert (Hz : ((p - 1) * (p + 1) == 0)%Q).
  { transitivity (p * p - 1)%Q; [ring|]. rewrite Hsq. reflexivity. }
  apply Qmult_integral in Hz as [Hz|Hz]; lra.
Qed.

(** C1 (what the code does).  On inputs for which the decomposition has
    [det(v) * det(w) < 0], the guard is entered and its first statement,
    [s[-1,:] *= -1], applies two subscripts to the one-dimensional array of
    singular values: the call ends with IndexError and returns no rotation. *)
Theorem reflection_guard_raises_IndexError svd (h : heap) fixed mobile ca
    fo fr mo mr :
  holds h fixed fo fr -> holds h mobile mo mr ->
  (ca = true -> wf_atoms fo fr /\ wf_atoms mo mr) ->
  length (reduced ca mo mr) = length (reduced ca fo fr) ->
  (let y := center (reduced ca mo mr) (mean mr) in
   let x := center (reduced ca fo fr) (mean fr) in
   let '(v, _, w) := svd (dot_T y x) in (det v * det w < 0)%Q) ->
  runs (superimpose svd fixed mobile ca) h (Raise index_error_1d)
    (h ++ [CNdarray (center (reduced ca mo mr) (mean mr));
           CNdarray (center (reduced ca fo fr) (mean fr))]).
Proof.
  intros Hf Hm Hwf Hlen Hdet.
  pose proof (superimpose_single_run svd h fixed mobile ca fo fr mo mr Hf Hm Hwf) as R.
  unfold kabsch in R. rewrite Hlen, Nat.eqb_refl in R. cbn [negb] in R.
  cbv zeta in Hdet.
  destruct (svd _) as [[v s] w].
  assert (G : Qltb (det v * det w) 0 = true).
  { unfold Qltb. destruct (Qle_bool 0 (det v * det w)) eqn:E; [|done].
    apply Qle_bool_iff in E. lra. }
  rewrite G in R. exact R.
Qed.

Lemma mirrored_covariance_decomposition :
  let c := dot_T (center octa_mirrored (mean octa_mirrored)) (center octa (mean octa)) in
  is_svd c (svd_diag c) /\ (det c < 0)%Q.
Proof. vm_compute. intuition discriminate. Qed.

Lemma reflection_guard_raises_IndexError_witness :
  runs (superimpose svd_diag 1 3 true) mirror_heap
    (Raise (Exception "IndexError" "too many indices for array"))
    (mirror_heap ++
       [CNdarray (center octa_mirrored (mean octa_mirrored));
        CNdarray (center octa (mean octa))]).
Proof.
  apply (reflection_guard_raises_IndexError svd_diag mirror_heap 1 3 true
           (mkAtomArray 0 ca6 []) octa (mkAtomArray 2 ca6 []) octa_mirrored).
  - split; reflexivity.
  - split; reflexivity.
  - intros _. split; reflexivity.
  - reflexivity.
  - vm_compute. reflexivity.
Defined.

(** *** C3: which centroids are subtracted *)

(** What a successful single-pair call leaves behind. *)
Lemma superimpose_single_inv svd (h : heap) fixed mobile ca fo fr mo mr f t h' :
  holds h fixed fo fr -> holds h mobile mo mr ->
  (ca = true -> wf_atoms fo fr /\ wf_atoms mo mr) ->
  runs (superimpose svd fixed mobile ca) h (Ok (Single f t)) h' ->
  exists y x moved fitted,
    kabsch svd ca fo fr mo mr = Fitted y x moved fitted t /\
    f = length h + 3 /\
    h' = h ++ outcome_cells (length h) mo (Fitted y x moved fitted t).
Proof.
  intros Hf Hm Hwf R.
  pose proof (superimpose_single_run svd h fixed mobile ca fo fr mo mr Hf Hm Hwf) as R'.
  destruct (runs_det _ _ _ _ _ _ R R') as [Er ->].
  destruct (kabsch svd ca fo fr mo mr) as [| |y x moved fitted t']; try discriminate.
  cbn in Er. inversion Er; subst. by exists y, x, moved, fitted.
Qed.

Lemma kabsch_Fitted svd ca fo fr mo mr y x moved fitted t :
  kabsch svd ca fo fr mo mr = Fitted y x moved fitted t ->
  y = center (reduced ca mo mr) (mean mr) /\
  x = center (reduced ca fo fr) (mean fr) /\
  moved = center mr (mean mr) /\
  fitted = uncenter (dot_rows moved t.1.2) (mean fr) /\
  t.1.1 = vneg (mean mr) /\ t.2 = mean fr /\
  length (reduced ca mo mr) = length (reduced ca fo fr) /\
  (let '(v, _, w) := svd (dot_T y x) in
   Qltb (det v * det w) 0 = false /\ t.1.2 = mmul v w).
Proof.
  unfold kabsch.
  destruct (Nat.eqb _ _) eqn:E; cbn [negb]; [|discriminate].
  apply Nat.eqb_eq in E.
  destruct (svd _) as [[v s] w] eqn:Es.
  destruct (Qltb _ _) eqn:G; [discriminate|].
  intros Heq. inversion Heq; subst. cbn [fst snd].
  rewrite Es. by rewrite G.
Qed.

(** C3.  With [ca_only] set, the centroids subtracted in the centering
    step, and the translations [-mob_centroid] and [fix_centroid] of the
    returned transformation, are the centroids of the full coordinate sets
    and not, as the description of the fit on the " CA " atoms has it, those
    of the " CA " rows: the two centered arrays are the " CA " rows minus the
    centroid of all rows. *)
Theorem centering_uses_full_centroids svd (h : heap) fixed mobile
    fo fr mo mr f t1 R t2 h' :
  holds h fixed fo fr -> holds h mobile mo mr ->
  wf_atoms fo fr -> wf_atoms mo mr ->
  runs (superimpose svd fixed mobile true) h (Ok (Single f (t1, R, t2))) h' ->
  t1 = vneg (mean mr) /\ t2 = mean fr /\
  h' !! length h =
    Some (CNdarray (center (mask_select mr (eq_mask (atom_name mo) " CA ")) (mean mr))) /\
  h' !! (length h + 1) =
    Some (CNdarray (center (mask_select fr (eq_mask (atom_name fo) " CA ")) (mean fr))).
Proof.
  intros Hf Hm Wf Wm Hrun.
  destruct (superimpose_single_inv svd h fixed mobile true fo fr mo mr f _ h'
              Hf Hm (fun _ => conj Wf Wm) Hrun)
    as (y & x & moved & fitted & Hk & -> & ->).
  apply kabsch_Fitted in Hk.
  destruct Hk as (-> & -> & _ & _ & Ht1 & Ht2 & _). cbn [fst snd] in Ht1, Ht2.
  repeat split; [done | done | |].
  - rewrite <- (Nat.add_0_r (length h)) at 1. by rewrite lookup_new.
  - by rewrite lookup_new.
Qed.

Lemma tri_covariance_decomposition :
  let c := dot_T (center [(1, 0, 0); (-1, 0, 0)]%Q (mean tri))
                 (center [(1, 0, 0); (-1, 0, 0)]%Q (mean tri)) in
  is_svd c (svd_diag c).
Proof. vm_compute. intuition discriminate. Qed.

Lemma tri_run :
  exists f R h',
    runs (superimpose svd_diag 1 3 true) tri_heap
      (Ok (Single f (vneg (mean tri), R, mean tri))) h'.
Proof. eexists _, _, _. vm_compute. reflexivity. Qed.

Lemma centering_uses_full_centroids_witness :
  exists f t1 R t2 h',
    runs (superimpose svd_diag 1 3 true) tri_heap (Ok (Single f (t1, R, t2))) h' /\
    t1 = vneg (mean tri) /\ t2 = mean tri /\
    h' !! 8 = Some (CNdarray (center [(1, 0, 0); (-1, 0, 0)]%Q (mean tri))) /\
    h' !! 9 = Some (CNdarray (center [(1, 0, 0); (-1, 0, 0)]%Q (mean tri))).
Proof.
  destruct tri_run as (f & R & h' & Hrun).
  exists f, (vneg (mean tri)), R, (mean tri), h'. split; [exact Hrun|].
  apply (centering_uses_full_centroids svd_diag tri_heap 1 3
           (mkAtomArray 0 tri_names tri_annot) tri
           (mkAtomArray 2 tri_names tri_annot) tri f _ R _ h').
  - split; reflexivity.
  - split; reflexivity.
  - reflexivity.
  - reflexivity.
  - exact Hrun.
Defined.

(** On [tri_heap] the call succeeds, yet neither translation is built from
    the centroid of the " CA " rows, and the centered mobile array is not
    zero-mean. *)
Lemma landmark_centroid_counterexample :
  exists f t1 R t2 h' y,
    runs (superimpose svd_diag 1 3 true) tri_heap (Ok (Single f (t1, R, t2))) h' /\
    h' !! 8 = Some (CNdarray y) /\
    ~ veq t1 (vneg (mean (reduced true (mkAtomArray 2 tri_names tri_annot) tri))) /\
    ~ veq t2 (mean (reduced true (mkAtomArray 0 tri_names tri_annot) tri)) /\
    ~ veq (mean y) vzero.
Proof.
  eexists _, _, _, _, _, _.
  split; [vm_compute; reflexivity|].
  split; [vm_compute; reflexivity|].
  repeat split; vm_compute; intros (_ & H & _); discriminate.
Qed.

Lemma shift_covariance_decomposition :
  let y := center octa (1, 0, 0)%Q in
  let x := center octa (2, 0, 0)%Q in
  is_svd (dot_T y x) (svd_diag (dot_T y x)).
Proof. vm_compute. intuition discriminate. Qed.

(** The effect on [shift_heap]: the " CA " atoms of the two structures
    coincide before the call, yet the fit on the " CA " atoms returns the
    identity rotation with the translations (-1,0,0) and (2,0,0), and every
    " CA " atom of the fitted structure lies one unit away from its
    partner. *)
Lemma identical_landmarks_moved_apart :
  exists f t1 R t2 h' o rows,
    reduced true (mkAtomArray 0 ca6_n []) (octa ++ [(14, 0, 0)%Q]) = octa /\
    reduced true (mkAtomArray 2 ca6_n []) (octa ++ [(7, 0, 0)%Q]) = octa /\
    runs (superimpose svd_diag 1 3 true) shift_heap (Ok (Single f (t1, R, t2))) h' /\
    veq t1 (-1, 0, 0)%Q /\ meq R midentity /\ veq t2 (2, 0, 0)%Q /\
    holds h' f o rows /\
    Forall2 veq (reduced true o rows) (map (fun p => vadd p (1, 0, 0)%Q) octa).
Proof.
  eexists _, _, _, _, _, _, _.
  split; [reflexivity|]. split; [reflexivity|].
  split; [vm_compute; reflexivity|].
  split; [vm_compute; done|]. split; [vm_compute; done|].
  split; [vm_compute; done|].
  split; [split; reflexivity|].
  vm_compute. repeat constructor.
Qed.

(** *** C9: the annotations of the fitted structure *)

Lemma single_fitted_structure svd (h : heap) fixed mobile ca fo fr mo mr f t h' :
  holds h fixed fo fr -> holds h mobile mo mr ->
  (ca = true -> wf_atoms fo fr /\ wf_atoms mo mr) ->
  runs (superimpose svd fixed mobile ca) h (Ok (Single f t)) h' ->
  holds h' mobile mo mr /\
  exists o rows,
    holds h' f o rows /\
    atom_name o = atom_name mo /\ annot o = annot mo /\
    rows = uncenter (dot_rows (center mr (mean mr)) t.1.2) (mean fr).
Proof.
  intros Hf Hm Hwf Hrun.
  destruct (superimpose_single_inv svd h fixed mobile ca fo fr mo mr f t h'
              Hf Hm Hwf Hrun)
    as (y & x & moved & fitted & Hk & -> & ->).
  apply kabsch_Fitted in Hk. destruct Hk as (_ & _ & -> & -> & _).
  split; [by apply holds_app|].
  cbn [outcome_cells]. eexists _, _. split; [lk_new|]. done.
Qed.

(** C9. The fitted structure of a successful call is a new AtomArray whose
    atom names and other annotation arrays are those of [mobile]; only its
    coordinate array differs, and [mobile] itself is as it was. *)
Theorem fitted_keeps_annotations svd (h : heap) fixed mobile ca fo fr mo mr f t h' :
  holds h fixed fo fr -> holds h mobile mo mr ->
  (ca = true -> wf_atoms fo fr /\ wf_atoms mo mr) ->
  runs (superimpose svd fixed mobile ca) h (Ok (Single f t)) h' ->
  holds h' mobile mo mr /\
  exists o rows,
    holds h' f o rows /\
    atom_name o = atom_name mo /\ annot o = annot mo /\
    rows = uncenter (dot_rows (center mr (mean mr)) t.1.2) (mean fr).
Proof. apply single_fitted_structure. Qed.

Lemma fitted_keeps_annotations_witness :
  exists f t h',
    runs (superimpose svd_diag 1 3 false) tri_heap (Ok (Single f t)) h' /\
    holds h' 3 (mkAtomArray 2 tri_names tri_annot) tri /\
    exists o rows,
      holds h' f o rows /\ atom_name o = tri_names /\ annot o = tri_annot /\
      rows = uncenter (dot_rows (center tri (mean tri)) t.1.2) (mean tri).
Proof.
  assert (Hrun : exists f t h',
    runs (superimpose svd_diag 1 3 false) tri_heap (Ok (Single f t)) h').
  { eexists _, _, _. vm_compute. reflexivity. }
  destruct Hrun as (f & t & h' & Hrun).
  exists f, t, h'. split; [exact Hrun|].
  apply (fitted_keeps_annotations svd_diag tri_heap 1 3 false
           (mkAtomArray 0 tri_names tri_annot) tri
           (mkAtomArray 2 tri_names tri_annot) tri f t h').
  - split; reflexivity.
  - split; reflexivity.
  - intros [=].
  - exact Hrun.
Defined.

(** *** C10: no landmark atoms at all *)

Lemma mask_select_none (rows : list vec3) (names : list string) s :
  Forall (fun n => n <> s) names -> mask_select rows (eq_mask names s) = [].
Proof.
  intros Hn. revert rows. induction Hn as [|n names Hne _ IH]; intros rows.
  - by destruct rows.
  - destruct rows as [|p rows]; [done|].
    unfold mask_select, eq_mask in *. cbn.
    apply String.eqb_neq in Hne. rewrite Hne. apply IH.
Qed.

(** C10. With [ca_only] set and no " CA " atom in either structure, both
    selected point sets are empty, the size check passes even when the
    structures differ in size, and the call goes on to the decomposition of
    the zero covariance matrix: it ends with the fitted structure, or with
    the IndexError of the reflection guard, never with the error of the
    size check. *)
Theorem no_landmarks_passes_size_check svd (h : heap) fixed mobile fo fr mo mr :
  holds h fixed fo fr -> holds h mobile mo mr ->
  wf_atoms fo fr -> wf_atoms mo mr ->
  Forall (fun n => n <> " CA ") (atom_name fo) ->
  Forall (fun n => n <> " CA ") (atom_name mo) ->
  reduced true fo fr = [] /\ reduced true mo mr = [] /\
  (forall ysel xsel, kabsch svd true fo fr mo mr <> Mismatch ysel xsel) /\
  exists r h',
    runs (superimpose svd fixed mobile true) h r h' /\
    r <> Raise (name_error "BadStructureException") /\
    (let '(v, _, w) := svd mzero in
     if Qltb (det v * det w) 0 then r = Raise index_error_1d
     else r = Ok (Single (length h + 3) (vneg (mean mr), mmul v w, mean fr))).
Proof.
  intros Hf Hm Wf Wm Nf Nm.
  pose proof (mask_select_none fr _ _ Nf) as Ef.
  pose proof (mask_select_none mr _ _ Nm) as Em.
  assert (Hk : kabsch svd true fo fr mo mr =
    let '(v, _, w) := svd mzero in
    if Qltb (det v * det w) 0 then Reflected [] []
    else Fitted [] [] (center mr (mean mr))
           (uncenter (dot_rows (center mr (mean mr)) (mmul v w)) (mean fr))
           (vneg (mean mr), mmul v w, mean fr)).
  { unfold kabsch, reduced. rewrite Ef, Em. reflexivity. }
  split; [exact Ef|]. split; [exact Em|]. split.
  - intros ysel xsel. rewrite Hk.
    destruct (svd mzero) as [[v s] w]. by destruct (Qltb _ _).
  - eexists _, _. split.
    { apply (superimpose_single_run svd h fixed mobile true fo fr mo mr Hf Hm).
      by intros _. }
    rewrite Hk. destruct (svd mzero) as [[v s] w].
    by destruct (Qltb _ _).
Qed.

Lemma no_landmarks_passes_size_check_witness :
  length [(0, 0, 1)%Q] <> length [(1, 0, 0); (0, 1, 0)]%Q /\
  exists r h',
    runs (superimpose svd_diag 1 3 true) noca_heap r h' /\
    r <> Raise (name_error "BadStructureException").
Proof.
  split; [simpl; lia|].
  destruct (no_landmarks_passes_size_check svd_diag noca_heap 1 3
              (mkAtomArray 0 [" N  "; " C  "] []) [(1, 0, 0); (0, 1, 0)]%Q
              (mkAtomArray 2 [" O  "] []) [(0, 0, 1)%Q])
    as (_ & _ & _ & r & h' & Hrun & Hne & _).
  - split; reflexivity.
  - split; reflexivity.
  - reflexivity.
  - reflexivity.
  - repeat constructor; discriminate.
  - repeat constructor; discriminate.
  - by exists r, h'.
Defined.

(** *** C2: replaying a transformation *)

Lemma returns_nothing_ret {A} : returns_nothing (ret (None : option A)).
Proof. intros h. by left. Qed.

Lemma returns_nothing_bind {A B} (m : M A) (k : A -> M (option B)) :
  (forall a, returns_nothing (k a)) -> returns_nothing (bind m k).
Proof.
  intros Hk h. unfold bind. destruct (m h) as [[a|e] h1].
  - apply Hk.
  - right. by exists e.
Qed.

(** C2 (what the code does).  [apply_superimposition] builds the transformed
    copy but its body ends without returning it: for every argument the call
    evaluates to [None] or raises, and never hands back a coordinate set. *)
Theorem apply_superimposition_returns_nothing atoms t :
  returns_nothing (apply_superimposition atoms t).
Proof.
  destruct t as [[t0 t1] t2]. unfold apply_superimposition.
  repeat (apply returns_nothing_bind; intros ?).
  apply returns_nothing_ret.
Qed.

(** The store after a replay: the transformed copy is built as documented. *)
Lemma apply_superimposition_run (h : heap) atoms o rows t0 t1 t2 :
  holds h atoms o rows ->
  runs (apply_superimposition atoms (t0, t1, t2)) h (Ok None)
    (h ++ [CNdarray (uncenter rows t0);
           CAtomArray (mkAtomArray (length h + 2) (atom_name o) (annot o));
           CNdarray (uncenter (dot_rows (uncenter rows t0) t1) t2)]).
Proof.
  intros Ha. rewrite <- (app_nil_r h) at 1. unfold apply_superimposition.
  step runs_copy.
  step_new runs_coord_iadd.
  step_new runs_coord_set_dot.
  step_new runs_coord_iadd.
  reflexivity.
Qed.

Lemma uncenter_vneg rows c : uncenter rows (vneg c) = center rows c.
Proof.
  unfold uncenter, center. apply map_ext. intros [[p1 p2] p3].
  destruct c as [[c1 c2] c3]. reflexivity.
Qed.

(** The coordinates the replay computes for [mobile] are those of the
    fitted structure of the alignment that produced the transformation;
    what is missing is only the [return]. *)
Lemma replay_builds_fitted_coordinates svd (h : heap) fixed mobile ca
    fo fr mo mr f t h' :
  holds h fixed fo fr -> holds h mobile mo mr ->
  (ca = true -> wf_atoms fo fr /\ wf_atoms mo mr) ->
  runs (superimpose svd fixed mobile ca) h (Ok (Single f t)) h' ->
  exists h'',
    runs (apply_superimposition mobile t) h' (Ok None) h'' /\
    content h'' (length h' + 1) = content h' f.
Proof.
  intros Hf Hm Hwf Hrun.
  destruct (single_fitted_structure svd h fixed mobile ca fo fr mo mr f t h'
              Hf Hm Hwf Hrun) as (Hm' & o & rows & Ho & En & Ea & ->).
  destruct (superimpose_single_inv svd h fixed mobile ca fo fr mo mr f t h'
              Hf Hm Hwf Hrun) as (y & x & moved & fitted & Hk & _ & _).
  apply kabsch_Fitted in Hk. destruct Hk as (_ & _ & _ & _ & Ht1 & Ht2 & _).
  destruct t as [[t0 t1] t2]. cbn [fst snd] in *. subst t0 t2.
  eexists. split; [apply (apply_superimposition_run h' mobile mo mr), Hm'|].
  rewrite (holds_content _ _ _ _ Ho), En, Ea.
  unfold content. rewrite lookup_new. cbn [lookup list_lookup coord].
  rewrite lookup_new. cbn. by rewrite uncenter_vneg.
Qed.

(** ** Frame: what a call may touch *)

Section Frame.

Variable n : nat.

Lemma preserves_ret {A} (a : A) (Q : A -> Prop) : Q a -> preserves n (ret a) Q.
Proof. intros Ha h Hh. cbn. repeat split; try apply Hh. by intros ? [= <-]. Qed.

Lemma preserves_raise {A} e (Q : A -> Prop) : preserves n (raise e) Q.
Proof. intros h Hh. cbn. repeat split; try apply Hh. intros ? [=]. Qed.

Lemma preserves_raise_class {A} cls msg (Q : A -> Prop) :
  preserves n (raise_class cls msg) Q.
Proof. unfold raise_class. destruct (is_bound cls); apply preserves_raise. Qed.

Lemma preserves_bind {A B} (m : M A) (k : A -> M B) (Q1 : A -> Prop) (Q2 : B -> Prop) :
  preserves n m Q1 -> (forall a, Q1 a -> preserves n (k a) Q2) ->
  preserves n (bind m k) Q2.
Proof.
  intros Hm Hk h Hh. destruct (Hm h Hh) as (Hc & Ht & HQ).
  unfold bind. destruct (m h) as [[a|e] h1]; cbn in *.
  - destruct (Hk a (HQ a eq_refl) h1 Hc) as (Hc' & Ht' & HQ').
    repeat split; [apply Hc' | apply Hc' | congruence | exact HQ'].
  - repeat split; [apply Hc | apply Hc | exact Ht | intros ? [=]].
Qed.

Lemma preserves_weaken {A} (m : M A) (Q1 Q2 : A -> Prop) :
  preserves n m Q1 -> (forall a, Q1 a -> Q2 a) -> preserves n m Q2.
Proof.
  intros Hm HQ h Hh. destruct (Hm h Hh) as (Hc & Ht & H1).
  repeat split; [apply Hc | apply Hc | exact Ht | auto].
Qed.

Lemma preserves_alloc c : cell_above n c -> preserves n (alloc c) (fun l => n <= l).
Proof.
  intros Hc h [Hlen Hcl]. cbn. repeat split.
  - rewrite length_app. lia.
  - intros l c' Hl [Hin | [_ Hin]]%lookup_app_Some; [by eapply Hcl|].
    apply list_lookup_singleton_Some in Hin as [_ <-]. exact Hc.
  - by apply take_app_le.
  - by intros ? [= <-].
Qed.

Lemma preserves_load l :
  preserves n (load l)
    (fun oc => n <= l -> forall c, oc = Some c -> cell_above n c).
Proof.
  intros h [Hlen Hcl]. cbn. repeat split; [done | done |].
  intros oc [= <-] Hl c Hc. by eapply Hcl.
Qed.

Lemma preserves_store l c :
  n <= l -> cell_above n c -> preserves n (store l c) (fun _ => True).
Proof.
  intros Hl Hc h [Hlen Hcl]. cbn. repeat split.
  - by rewrite length_insert.
  - intros l' c' Hl' [(-> & -> & _) | [_ Hin]]%list_lookup_insert_Some;
      [exact Hc | by eapply Hcl].
  - by apply take_insert_ge.
Qed.

Lemma preserves_type_ x : preserves n (type_ x) (fun _ => True).
Proof.
  eapply preserves_bind; [apply preserves_load|].
  intros oc _. by apply preserves_ret.
Qed.

Lemma preserves_as_AtomArray x attr :
  preserves n (as_AtomArray x attr) (fun o => n <= x -> n <= coord o).
Proof.
  eapply preserves_bind; [apply preserves_load|].
  intros [[| o | |]|] Hc; try apply preserves_raise.
  apply preserves_ret. intros Hx. by apply (Hc Hx (CAtomArray o)).
Qed.

Lemma preserves_get_coord x :
  preserves n (get_coord x) (fun a => n <= x -> n <= a).
Proof.
  eapply preserves_bind; [apply preserves_as_AtomArray|].
  intros o Ho. by apply preserves_ret.
Qed.

Lemma preserves_get_atom_name x :
  preserves n (get_atom_name x) (fun _ => True).
Proof.
  eapply preserves_bind; [apply preserves_as_AtomArray|].
  intros o _. by apply preserves_ret.
Qed.

Lemma preserves_set_coord x a :
  n <= x -> n <= a -> preserves n (set_coord x a) (fun _ => True).
Proof.
  intros Hx Ha. eapply preserves_bind; [apply preserves_as_AtomArray|].
  intros o _. by apply preserves_store.
Qed.

Lemma preserves_as_ndarray a : preserves n (as_ndarray a) (fun _ => True).
Proof.
  eapply preserves_bind; [apply preserves_load|].
  intros [[| | |]|] _; try apply preserves_raise. by apply preserves_ret.
Qed.

Lemma preserves_len a : preserves n (len a) (fun _ => True).
Proof.
  eapply preserves_bind; [apply preserves_as_ndarray|].
  intros rows _. by apply preserves_ret.
Qed.

Lemma preserves_np_copy a : preserves n (np_copy a) (fun l => n <= l).
Proof.
  eapply preserves_bind; [apply preserves_as_ndarray|].
  intros rows _. by apply preserves_alloc.
Qed.

Lemma preserves_getitem_mask a mask :
  preserves n (getitem_mask a mask) (fun l => n <= l).
Proof.
  eapply preserves_bind; [apply preserves_as_ndarray|].
  intros rows _. destruct (Nat.eqb _ _);
    [by apply preserves_alloc | apply preserves_raise].
Qed.

Lemma preserves_np_dot a m : preserves n (np_dot a m) (fun l => n <= l).
Proof.
  eapply preserves_bind; [apply preserves_as_ndarray|].
  intros rows _. by apply preserves_alloc.
Qed.

Lemma preserves_np_dot_T y x : preserves n (np_dot_T y x) (fun _ => True).
Proof.
  eapply preserves_bind; [apply preserves_as_ndarray|]. intros ry _.
  eapply preserves_bind; [apply preserves_as_ndarray|]. intros rx _.
  by apply preserves_ret.
Qed.

Lemma preserves_isub a v : n <= a -> preserves n (isub a v) (fun _ => True).
Proof.
  intros Ha. eapply preserves_bind; [apply preserves_as_ndarray|].
  intros rows _. by apply preserves_store.
Qed.

Lemma preserves_iadd a v : n <= a -> preserves n (iadd a v) (fun _ => True).
Proof.
  intros Ha. eapply preserves_bind; [apply preserves_as_ndarray|].
  intros rows _. by apply preserves_store.
Qed.

Lemma preserves_coord_isub x v :
  n <= x -> preserves n (coord_isub x v) (fun _ => True).
Proof.
  intros Hx. eapply preserves_bind; [apply preserves_get_coord|]. intros a Ha.
  eapply preserves_bind; [apply preserves_isub; auto|]. intros _ _.
  apply preserves_set_coord; auto.
Qed.

Lemma preserves_coord_iadd x v :
  n <= x -> preserves n (coord_iadd x v) (fun _ => True).
Proof.
  intros Hx. eapply preserves_bind; [apply preserves_get_coord|]. intros a Ha.
  eapply preserves_bind; [apply preserves_iadd; auto|]. intros _ _.
  apply preserves_set_coord; auto.
Qed.

Lemma preserves_coord_set_dot x m :
  n <= x -> preserves n (coord_set_dot x m) (fun _ => True).
Proof.
  intros Hx. eapply preserves_bind; [apply preserves_get_coord|]. intros a _.
  eapply preserves_bind; [apply preserves_np_dot|]. intros b Hb.
  by apply preserves_set_coord.
Qed.

Lemma preserves_copy x : preserves n (copy x) (fun l => n <= l).
Proof.
  eapply preserves_bind; [apply preserves_as_AtomArray|]. intros o _.
  eapply preserves_bind; [apply preserves_as_ndarray|]. intros rows _.
  eapply preserves_bind; [by apply preserves_alloc|]. intros a Ha.
  by apply preserves_alloc.
Qed.

Lemma preserves_centroid x : preserves n (centroid x) (fun _ => True).
Proof.
  eapply preserves_bind; [apply preserves_get_coord|]. intros a _.
  eapply preserves_bind; [apply preserves_as_ndarray|]. intros rows _.
  by apply preserves_ret.
Qed.

Lemma preserves_iter_stack x : preserves n (iter_stack x) (fun _ => True).
Proof.
  eapply preserves_bind; [apply preserves_load|].
  intros [[| | |]|] _; try apply preserves_raise. by apply preserves_ret.
Qed.

Lemma preserves_stack arrays :
  Forall (fun m => n <= m) arrays -> preserves n (stack arrays) (fun l => n <= l).
Proof. intros Ha. by apply preserves_alloc. Qed.

Lemma preserves_imul_last_row a k :
  preserves n (imul_last_row a k) (fun _ => True).
Proof.
  destruct a as [v | [[r1 r2] [[x y] z]]]; [apply preserves_raise|].
  by apply preserves_ret.
Qed.

Variable svd : mat3 -> mat3 * vec3 * mat3.

Lemma preserves__superimpose fixed mobile ca :
  preserves n (_superimpose svd fixed mobile ca)
    (fun r => forall f t, r = Some (f, t) -> n <= f).
Proof.
  unfold _superimpose.
  eapply preserves_bind; [apply preserves_type_|]. intros ty _.
  destruct (decide (ty = TAtomArray)); [| by apply preserves_ret].
  eapply preserves_bind; [apply preserves_centroid|]. intros mob_centroid _.
  eapply preserves_bind; [apply preserves_centroid|]. intros fix_centroid _.
  eapply preserves_bind with (Q1 := fun c => n <= c.1 /\ n <= c.2).
  { destruct ca.
    - eapply preserves_bind; [apply preserves_get_coord|]. intros mc _.
      eapply preserves_bind; [apply preserves_get_atom_name|]. intros mn _.
      eapply preserves_bind; [apply preserves_getitem_mask|]. intros y Hy.
      eapply preserves_bind; [apply preserves_get_coord|]. intros fc _.
      eapply preserves_bind; [apply preserves_get_atom_name|]. intros fn _.
      eapply preserves_bind; [apply preserves_getitem_mask|]. intros x Hx.
      by apply preserves_ret.
    - eapply preserves_bind; [apply preserves_get_coord|]. intros mc _.
      eapply preserves_bind; [apply preserves_np_copy|]. intros y Hy.
      eapply preserves_bind; [apply preserves_get_coord|]. intros fc _.
      eapply preserves_bind; [apply preserves_np_copy|]. intros x Hx.
      by apply preserves_ret. }
  intros [y x] [Hy Hx]. cbn [fst snd] in *.
  eapply preserves_bind; [apply preserves_len|]. intros lm _.
  eapply preserves_bind; [apply preserves_len|]. intros lf _.
  destruct (negb _); [apply preserves_raise_class|].
  eapply preserves_bind; [by apply preserves_isub|]. intros _ _.
  eapply preserves_bind; [by apply preserves_isub|]. intros _ _.
  eapply preserves_bind; [apply preserves_np_dot_T|]. intros cov _.
  destruct (svd cov) as [[v s] w].
  eapply preserves_bind with (Q1 := fun _ => True).
  { destruct (Qltb _ _); [| by apply preserves_ret].
    eapply preserves_bind; [apply preserves_imul_last_row|]. intros s' _.
    by apply preserves_ret. }
  intros sv _.
  eapply preserves_bind; [apply preserves_copy|]. intros f Hf.
  eapply preserves_bind; [by apply preserves_coord_isub|]. intros _ _.
  eapply preserves_bind; [by apply preserves_coord_set_dot|]. intros _ _.
  eapply preserves_bind; [by apply preserves_coord_iadd|]. intros _ _.
  apply preserves_ret. by intros ? ? [= <- _].
Qed.

Lemma preserves_superimpose_loop fixed ca models fitted transformations :
  Forall (fun m => n <= m) fitted ->
  preserves n (superimpose_loop svd fixed ca models fitted transformations)
    (fun ft => Forall (fun m => n <= m) ft.1).
Proof.
  revert fitted transformations.
  induction models as [|mobile rest IH]; intros fitted transformations Hacc; cbn.
  - by apply preserves_ret.
  - eapply preserves_bind; [apply preserves__superimpose|].
    intros [[f t]|] Hr; [| apply preserves_raise].
    apply IH. apply Forall_app. split; [done|].
    constructor; [|done]. by eapply Hr.
Qed.

Lemma preserves_superimpose fixed mobile ca :
  preserves n (superimpose svd fixed mobile ca) (fresh_result n).
Proof.
  unfold superimpose.
  eapply preserves_bind; [apply preserves_type_|]. intros tf _.
  destruct (decide (tf <> TAtomArray)); [apply preserves_raise_class|].
  eapply preserves_bind; [apply preserves_type_|]. intros tm _.
  destruct (decide (tm = TAtomArray)).
  - eapply preserves_bind; [apply preserves__superimpose|].
    intros [[f t]|] Hr; apply preserves_ret; cbn; [by eapply Hr | done].
  - destruct (decide (tm = TAtomArrayStack)); [|apply preserves_raise_class].
    eapply preserves_bind; [apply preserves_iter_stack|]. intros models _.
    eapply preserves_bind; [by apply preserves_superimpose_loop|].
    intros [fs ts] Hfs.
    eapply preserves_bind; [by apply preserves_stack|]. intros st Hst.
    by apply preserves_ret.
Qed.

Lemma preserves_apply_superimposition atoms t :
  preserves n (apply_superimposition atoms t) (fun _ => True).
Proof.
  destruct t as [[t0 t1] t2]. unfold apply_superimposition.
  eapply preserves_bind; [apply preserves_copy|]. intros f Hf.
  eapply preserves_bind; [by apply preserves_coord_iadd|]. intros _ _.
  eapply preserves_bind; [by apply preserves_coord_set_dot|]. intros _ _.
  eapply preserves_bind; [by apply preserves_coord_iadd|]. intros _ _.
  by apply preserves_ret.
Qed.

End Frame.

Lemma closed_above_length (h : heap) : closed_above (length h) h.
Proof.
  split; [done|]. intros l c Hl Hc. apply lookup_lt_Some in Hc. lia.
Qed.

Lemma closed_above_fresh_atoms n (h : heap) f :
  closed_above n h -> n <= f -> fresh_atoms n h f.
Proof. intros [_ Hcl] Hf. split; [done|]. intros o Ho. by apply (Hcl f _ Hf Ho). Qed.

Lemma closed_above_fresh_output n (h : heap) r :
  closed_above n h -> fresh_result n r -> fresh_output n h r.
Proof.
  intros Hc Hr. destruct r as [f t | st ts |]; cbn in *; [| | done].
  - by apply closed_above_fresh_atoms.
  - split; [done|]. intros models Hst.
    destruct Hc as [Hlen Hcl]. pose proof (Hcl st _ Hr Hst) as Hms. cbn in Hms.
    eapply Forall_impl; [exact Hms|]. intros m Hm.
    by apply closed_above_fresh_atoms.
Qed.

(** *** C8: inputs are never mutated, outputs never alias them *)

(** C8. Whatever the arguments, after [superimpose] and after
    [apply_superimposition] every cell the store held before the call --
    the fixed and mobile structures and their coordinate arrays among them --
    is exactly as it was; the structures the call made refer only to arrays
    the call made; and what [superimpose] returns (the fitted structure, or
    the fitted stack with each member) was made by the call. *)
Theorem inputs_never_mutated svd (h : heap) fixed mobile ca atoms t :
  let out := superimpose svd fixed mobile ca h in
  let out' := apply_superimposition atoms t h in
  (take (length h) out.2 = h /\
   closed_above (length h) out.2 /\
   match out.1 with
   | Ok r => fresh_output (length h) out.2 r
   | Raise _ => True
   end) /\
  (take (length h) out'.2 = h /\ closed_above (length h) out'.2).
Proof.
  cbv zeta.
  destruct (preserves_superimpose (length h) svd fixed mobile ca h
              (closed_above_length h)) as (Hc & Ht & HQ).
  destruct (preserves_apply_superimposition (length h) atoms t h
              (closed_above_length h)) as (Hc' & Ht' & _).
  rewrite firstn_all in Ht, Ht'.
  repeat split; try done; try apply Hc; try apply Hc'.
  destruct (superimpose svd fixed mobile ca h).1 as [r|e] eqn:E; [|done].
  apply closed_above_fresh_output; [exact Hc | by apply HQ].
Qed.

(** ** The loop over a stack *)

Section Batch.

Variable svd : mat3 -> mat3 * vec3 * mat3.

Lemma content_app (h ext : heap) x v : content h x = Some v -> content (h ++ ext) x = Some v.
Proof.
  unfold content. destruct (h !! x) as [[| o | |]|] eqn:Hx; try done.
  destruct (h !! coord o) as [[rows | | |]|] eqn:Hc; try done.
  intros [= <-].
  by rewrite (lookup_app_l_Some _ _ _ _ Hx), (lookup_app_l_Some _ _ _ _ Hc).
Qed.

Lemma superimpose_loop_spec fixed ca fo fr models mvs :
  forall (h : heap) accf acct,
  holds h fixed fo fr -> wf_atoms fo fr ->
  Forall2 (fun m v => holds h m v.1 v.2 /\ wf_atoms v.1 v.2) models mvs ->
  exists ext,
    (superimpose_loop svd fixed ca models accf acct h).2 = h ++ ext /\
    match (superimpose_loop svd fixed ca models accf acct h).1 with
    | Ok ft =>
        exists fs ts,
          ft = (accf ++ fs, acct ++ ts) /\
          length fs = length models /\ length ts = length models /\
          forall i v, mvs !! i = Some v ->
            exists f t y x moved fitted,
              fs !! i = Some f /\ ts !! i = Some t /\
              kabsch svd ca fo fr v.1 v.2 = Fitted y x moved fitted t /\
              content (h ++ ext) f = Some (atom_name v.1, annot v.1, fitted)
    | Raise e =>
        exists v, v ∈ mvs /\
          forall k, outcome_result k (kabsch svd ca fo fr v.1 v.2) = Raise e
    end.
Proof.
  revert mvs. induction models as [|m rest IH]; intros mvs h accf acct Hf Wf HF.
  - apply Forall2_nil_inv_l in HF as ->. exists []. cbn.
    split; [by rewrite app_nil_r|].
    exists [], []. rewrite !app_nil_r. repeat split; try done.
  - apply Forall2_cons_inv_l in HF as ([mo mr] & mvs' & [Hm Wm] & HF & ->).
    cbn [fst snd] in Hm, Wm.
    pose proof (_superimpose_run svd h fixed m ca fo fr mo mr Hf Hm
                  (fun _ => conj Wf Wm)) as R.
    cbn [superimpose_loop]. unfold bind. unfold runs in R. rewrite R. clear R.
    destruct (kabsch svd ca fo fr mo mr) as [ys xs | y x | y x moved fitted t] eqn:Hk;
      cbn [outcome_result outcome_cells fst snd].
    + eexists. split; [reflexivity|].
      exists (mo, mr). split; [apply list_elem_of_here|]. intros k. cbn. by rewrite Hk.
    + eexists. split; [reflexivity|].
      exists (mo, mr). split; [apply list_elem_of_here|]. intros k. cbn. by rewrite Hk.
    + set (cells := [CNdarray y; CNdarray x; CNdarray moved;
                     CAtomArray _; CNdarray fitted]).
      destruct (IH mvs' (h ++ cells) (accf ++ [length h + 3]) (acct ++ [t]))
        as (ext & Eh & Hr).
      { by apply holds_app. }
      { done. }
      { eapply Forall2_impl; [exact HF|]. intros m' v' [Hm' Wm'].
        split; [by apply holds_app | done]. }
      exists (cells ++ ext). rewrite Eh, <- app_assoc. split; [done|].
      destruct (superimpose_loop svd fixed ca rest _ _ (h ++ cells)).1
        as [ft|e].
      * destruct Hr as (fs & ts & -> & Lf & Lt & Hi).
        exists (length h + 3 :: fs), (t :: ts). rewrite <- !app_assoc.
        split; [done|]. split; [cbn; lia|]. split; [cbn; lia|].
        intros [|i] v Hv.
        -- injection Hv as <-. cbn [fst snd].
           exists (length h + 3), t, y, x, moved, fitted.
           repeat split; try done.
           rewrite app_assoc. apply content_app.
           unfold content, cells. rewrite lookup_new. cbn [lookup list_lookup coord].
           by rewrite lookup_new.
        -- cbn in Hv. destruct (Hi i v Hv) as (f & t' & y' & x' & mv' & ft' & H1 & H2 & H3 & H4).
           exists f, t', y', x', mv', ft'. repeat split; try done.
           by rewrite <- app_assoc in H4.
      * destruct Hr as (v & Hin & Hv). exists v. split; [|done].
        by apply list_elem_of_further.
Qed.

Lemma Forall_wf_structure (h : heap) models :
  Forall (wf_structure h) models ->
  exists mvs,
    Forall2 (fun m v => holds h m v.1 v.2 /\ wf_atoms v.1 v.2) models mvs.
Proof.
  induction 1 as [|m models (o & rows & Hm & Wm) _ [mvs IH]].
  - by exists [].
  - exists ((o, rows) :: mvs). by constructor.
Qed.

(** What [superimpose] does with a stack, in terms of its loop. *)
Lemma superimpose_stack_run (h : heap) fixed mobile ca fo models :
  h !! fixed = Some (CAtomArray fo) ->
  h !! mobile = Some (CAtomArrayStack models) ->
  superimpose svd fixed mobile ca h =
    match superimpose_loop svd fixed ca models [] [] h with
    | (Ok ft, h1) => (Ok (Stacked (length h1) ft.2), h1 ++ [CAtomArrayStack ft.1])
    | (Raise e, h1) => (Raise e, h1)
    end.
Proof.
  intros Hf Hm. unfold superimpose, type_, iter_stack, bind, load, ret.
  rewrite Hf. cbn [type_of_cell].
  destruct (decide (TAtomArray <> TAtomArray)) as [|_]; [done|].
  rewrite Hm. cbn [type_of_cell].
  destruct (decide (TAtomArrayStack = TAtomArray)) as [|_]; [done|].
  destruct (decide (TAtomArrayStack = TAtomArrayStack)) as [_|]; [|done].
  rewrite Hm.
  by destruct (superimpose_loop svd fixed ca models [] [] h) as [[ft|e] h1].
Qed.

End Batch.

(** *** C5: batch against single-pair alignment *)

(** C5. For a fixed structure and a stack of well-formed structures: when
    the batch call returns, the fitted stack and the list of transformations
    have one entry per member, in stack order, and entry [i] is what the
    single-pair call on [(fixed, stack[i])] returns -- the same
    transformation, and a fitted structure with the same annotations and
    coordinates; and the batch call does return whenever every single-pair
    call does. *)
Theorem batch_equals_individual svd (h : heap) fixed mobile ca fo fr models :
  holds h fixed fo fr -> wf_atoms fo fr ->
  h !! mobile = Some (CAtomArrayStack models) ->
  Forall (wf_structure h) models ->
  (forall st ts h',
     runs (superimpose svd fixed mobile ca) h (Ok (Stacked st ts)) h' ->
     exists fs,
       h' !! st = Some (CAtomArrayStack fs) /\
       length fs = length models /\ length ts = length models /\
       forall i m, models !! i = Some m ->
         exists f t fi hi,
           fs !! i = Some f /\ ts !! i = Some t /\
           runs (superimpose svd fixed m ca) h (Ok (Single fi t)) hi /\
           is_Some (content hi fi) /\
           content h' f = content hi fi) /\
  ((forall m, m ∈ models ->
      exists f t hi, runs (superimpose svd fixed m ca) h (Ok (Single f t)) hi) ->
   exists st ts h',
     runs (superimpose svd fixed mobile ca) h (Ok (Stacked st ts)) h').
Proof.
  intros Hf Wf Hm Hwf.
  destruct (Forall_wf_structure h models Hwf) as [mvs HF].
  destruct (superimpose_loop_spec svd fixed ca fo fr models mvs h [] [] Hf Wf HF)
    as (ext & Eh & Hr).
  pose proof (superimpose_stack_run svd h fixed mobile ca fo models (proj1 Hf) Hm)
    as Hrun.
  destruct (superimpose_loop svd fixed ca models [] [] h) as [[ft|e] h1];
    cbn [fst snd] in *; subst h1.
  - destruct Hr as (fs & ts & -> & Lf & Lt & Hi). cbn [fst snd app] in Hrun.
    split.
    + intros st ts' h' R. unfold runs in R. rewrite Hrun in R.
      injection R as <- <- <-.
      exists fs. split; [by rewrite lookup_app_r, Nat.sub_diag by lia|].
      split; [done|]. split; [done|].
      intros i m Hi'.
      destruct (Forall2_lookup_l _ _ _ _ _ HF Hi') as ([mo mr] & Hv & Hmo & Wm).
      cbn [fst snd] in *.
      destruct (Hi i _ Hv) as (f & t & y & x & moved & fitted & H1 & H2 & Hk & Hc).
      cbn [fst snd] in *.
      pose proof (superimpose_single_run svd h fixed m ca fo fr mo mr Hf Hmo
                    (fun _ => conj Wf Wm)) as Rs.
      rewrite Hk in Rs. cbn [outcome_result single_result outcome_cells] in Rs.
      eexists f, t, _, _. split; [done|]. split; [done|]. split; [exact Rs|].
      assert (Hci : content
                (h ++ [CNdarray y; CNdarray x; CNdarray moved;
                       CAtomArray (mkAtomArray (length h + 4) (atom_name mo) (annot mo));
                       CNdarray fitted]) (length h + 3)
              = Some (atom_name mo, annot mo, fitted)).
      { unfold content. rewrite lookup_new. cbn [lookup list_lookup coord].
        by rewrite lookup_new. }
      rewrite Hci. split; [by eexists|]. by apply content_app.
    + intros _. by eexists _, _, _.
  - destruct Hr as ([mo mr] & Hin & Hv). cbn [fst snd] in Hv. split.
    + intros st ts' h' R. unfold runs in R. rewrite Hrun in R. discriminate.
    + intros Hall. exfalso.
      apply list_elem_of_lookup in Hin as [i Hi].
      destruct (Forall2_lookup_r _ _ _ _ _ HF Hi) as (m & Hmi & Hmo & Wm).
      cbn [fst snd] in *.
      destruct (Hall m) as (f & t & hi & R).
      { apply list_elem_of_lookup. by exists i. }
      pose proof (superimpose_single_run svd h fixed m ca fo fr mo mr Hf Hmo
                    (fun _ => conj Wf Wm)) as Rs.
      destruct (runs_det _ _ _ _ _ _ R Rs) as [Er _].
      rewrite (Hv (length h)) in Er. discriminate.
Qed.

Lemma batch_equals_individual_witness :
  exists st ts h',
    runs (superimpose svd_diag 1 4 true) tri_heap (Ok (Stacked st ts)) h' /\
    exists fs,
      h' !! st = Some (CAtomArrayStack fs) /\
      length fs = 2 /\ length ts = 2 /\
      forall i m, [3; 1] !! i = Some m ->
        exists f t fi hi,
          fs !! i = Some f /\ ts !! i = Some t /\
          runs (superimpose svd_diag 1 m true) tri_heap (Ok (Single fi t)) hi /\
          is_Some (content hi fi) /\
          content h' f = content hi fi.
Proof.
  assert (Hrun : exists st ts h',
    runs (superimpose svd_diag 1 4 true) tri_heap (Ok (Stacked st ts)) h').
  { eexists _, _, _. vm_compute. reflexivity. }
  destruct Hrun as (st & ts & h' & Hrun).
  exists st, ts, h'. split; [exact Hrun|].
  apply (proj1 (batch_equals_individual svd_diag tri_heap 1 4 true
                  (mkAtomArray 0 tri_names tri_annot) tri [3; 1]
                  ltac:(split; reflexivity) ltac:(reflexivity)
                  ltac:(reflexivity)
                  ltac:(repeat constructor;
                        [ exists (mkAtomArray 2 tri_names tri_annot), tri
                        | exists (mkAtomArray 0 tri_names tri_annot), tri ];
                        repeat split; reflexivity))
           st ts h' Hrun).
Defined.

(** * Self-alignment and further properties of the superimposition *)

(** ** Orthogonal matrices *)




(** ** The rotation of a self-covariance *)



















Lemma meq_refl a : meq a a.
Proof.
  destruct a as [[[[a11 a12] a13] [[a21 a22] a23]] [[a31 a32] a33]].
  unfold meq, veq. repeat split; reflexivity.
Qed.







(** *** C7: self-alignment *)




(** ** Replay, landmark selection and failures in a batch *)

(** X5. Replaying the transformation of a successful alignment on the same
    [mobile] with [apply_superimposition] builds, in a new structure of the
    store, exactly the annotations and coordinates of the fitted structure
    of that alignment (the call itself evaluates to [None]). *)
Theorem replay_rebuilds_fitted_structure svd (h : heap) fixed mobile ca
    fo fr mo mr f t h' :
  holds h fixed fo fr -> holds h mobile mo mr ->
  (ca = true -> wf_atoms fo fr /\ wf_atoms mo mr) ->
  runs (superimpose svd fixed mobile ca) h (Ok (Single f t)) h' ->
  exists h'',
    runs (apply_superimposition mobile t) h' (Ok None) h'' /\
    is_Some (content h' f) /\
    content h'' (length h' + 1) = content h' f.
Proof.
  intros Hf Hm Hwf Hrun.
  destruct (replay_builds_fitted_coordinates svd h fixed mobile ca
              fo fr mo mr f t h' Hf Hm Hwf Hrun) as (h'' & R & E).
  destruct (single_fitted_structure svd h fixed mobile ca fo fr mo mr f t h'
              Hf Hm Hwf Hrun) as (_ & o & rows & Ho & _).
  exists h''. split; [exact R|]. split; [|exact E].
  rewrite (holds_content _ _ _ _ Ho). by eexists.
Qed.

Lemma replay_rebuilds_fitted_structure_witness :
  exists f t h' h'',
    runs (superimpose svd_diag 1 3 true) tri_heap (Ok (Single f t)) h' /\
    runs (apply_superimposition 3 t) h' (Ok None) h'' /\
    is_Some (content h' f) /\
    content h'' (length h' + 1) = content h' f.
Proof.
  assert (Hrun : exists f t h',
    runs (superimpose svd_diag 1 3 true) tri_heap (Ok (Single f t)) h').
  { eexists _, _, _. vm_compute. reflexivity. }
  destruct Hrun as (f & t & h' & Hrun).
  destruct (replay_rebuilds_fitted_structure svd_diag tri_heap 1 3 true
              (mkAtomArray 0 tri_names tri_annot) tri
              (mkAtomArray 2 tri_names tri_annot) tri f t h')
    as (h'' & H).
  - split; reflexivity.
  - split; reflexivity.
  - intros _. split; reflexivity.
  - exact Hrun.
  - by exists f, t, h', h''.
Defined.

Lemma mask_select_all (rows : list vec3) (names : list string) s :
  length names = length rows -> Forall (fun n => n = s) names ->
  mask_select rows (eq_mask names s) = rows.
Proof.
  intros Hlen Hn. revert rows Hlen.
  induction Hn as [|n names -> _ IH]; intros [|p rows] Hlen; try done.
  unfold mask_select, eq_mask in *. cbn. rewrite String.eqb_refl. cbn.
  f_equal. apply IH. cbn in Hlen. lia.
Qed.

(** X6. For structures whose atoms are all named " CA ", the [ca_only]
    switch makes no difference: both settings give the same result and
    leave the same store. *)
Theorem ca_only_irrelevant_for_CA_structures svd (h : heap) fixed mobile
    fo fr mo mr :
  holds h fixed fo fr -> holds h mobile mo mr ->
  wf_atoms fo fr -> wf_atoms mo mr ->
  Forall (fun n => n = " CA ") (atom_name fo) ->
  Forall (fun n => n = " CA ") (atom_name mo) ->
  superimpose svd fixed mobile true h = superimpose svd fixed mobile false h.
Proof.
  intros Hf Hm Wf Wm Af Am.
  pose proof (superimpose_single_run svd h fixed mobile true fo fr mo mr
                Hf Hm (fun _ => conj Wf Wm)) as Rt.
  pose proof (superimpose_single_run svd h fixed mobile false fo fr mo mr
                Hf Hm ltac:(intros [=])) as Rf.
  unfold runs in Rt, Rf. rewrite Rt, Rf.
  assert (kabsch svd true fo fr mo mr = kabsch svd false fo fr mo mr) as ->; [|done].
  unfold kabsch, reduced. by rewrite !mask_select_all.
Qed.

Lemma ca_only_irrelevant_for_CA_structures_witness :
  superimpose svd_diag 1 3 true mirror_heap
  = superimpose svd_diag 1 3 false mirror_heap.
Proof.
  apply (ca_only_irrelevant_for_CA_structures svd_diag mirror_heap 1 3
           (mkAtomArray 0 ca6 []) octa (mkAtomArray 2 ca6 []) octa_mirrored).
  - split; reflexivity.
  - split; reflexivity.
  - reflexivity.
  - reflexivity.
  - repeat constructor.
  - repeat constructor.
Defined.

Section BatchFailure.

Variable svd : mat3 -> mat3 * vec3 * mat3.

Lemma superimpose_loop_first_failure fixed ca fo fr m mo mr post e :
  wf_atoms fo fr -> wf_atoms mo mr ->
  (forall k, outcome_result k (kabsch svd ca fo fr mo mr) = Raise e) ->
  forall pre mvs (h : heap) accf acct,
  holds h fixed fo fr -> holds h m mo mr ->
  Forall2 (fun m' v =>
             holds h m' v.1 v.2 /\ wf_atoms v.1 v.2 /\
             exists y x moved fitted t,
               kabsch svd ca fo fr v.1 v.2 = Fitted y x moved fitted t)
          pre mvs ->
  (superimpose_loop svd fixed ca (pre ++ m :: post) accf acct h).1 = Raise e.
Proof.
  intros Wf Wm He. induction pre as [|m' pre IH]; intros mvs h accf acct Hf Hm HF.
  - cbn [app superimpose_loop]. unfold bind.
    pose proof (_superimpose_run svd h fixed m ca fo fr mo mr Hf Hm
                  (fun _ => conj Wf Wm)) as R.
    unfold runs in R. rewrite R, (He (length h)). done.
  - apply Forall2_cons_inv_l in HF
      as ([mo' mr'] & mvs' & (Hm' & Wm' & y & x & mv & ft & t & Hk) & HF & ->).
    cbn [fst snd] in *.
    cbn [app superimpose_loop]. unfold bind.
    pose proof (_superimpose_run svd h fixed m' ca fo fr mo' mr' Hf Hm'
                  (fun _ => conj Wf Wm')) as R.
    unfold runs in R. rewrite R, Hk. cbn [outcome_result outcome_cells].
    apply (IH mvs'); [by apply holds_app | by apply holds_app |].
    eapply Forall2_impl; [exact HF|]. intros m'' v (H1 & H2 & H3).
    split; [by apply holds_app | done].
Qed.

End BatchFailure.

(** X7. A batch call fails with the error of the first member whose
    single-pair call fails: when the calls on the members before [m] return
    and the call on [m] raises [e], the batch call raises [e] and returns no
    partial result; the members after [m] are never looked at. *)
Theorem batch_raises_first_failure svd (h : heap) fixed mobile ca fo fr
    pre m post e hm :
  holds h fixed fo fr -> wf_atoms fo fr ->
  h !! mobile = Some (CAtomArrayStack (pre ++ m :: post)) ->
  Forall (wf_structure h) (pre ++ [m]) ->
  Forall (fun m' => exists f t hi,
            runs (superimpose svd fixed m' ca) h (Ok (Single f t)) hi) pre ->
  runs (superimpose svd fixed m ca) h (Raise e) hm ->
  exists h', runs (superimpose svd fixed mobile ca) h (Raise e) h'.
Proof.
  intros Hf Wf Hs Hwf Hpre Hm.
  apply Forall_app in Hwf as [Hwfpre Hwfm].
  apply Forall_singleton in Hwfm as (mo & mr & Hmo & Wm).
  assert (He : forall k, outcome_result k (kabsch svd ca fo fr mo mr) = Raise e).
  { pose proof (superimpose_single_run svd h fixed m ca fo fr mo mr Hf Hmo
                  (fun _ => conj Wf Wm)) as R.
    destruct (runs_det _ _ _ _ _ _ Hm R) as [Er _].
    destruct (kabsch svd ca fo fr mo mr); cbn in *; try done; congruence. }
  assert (HF : exists mvs,
    Forall2 (fun m' v =>
               holds h m' v.1 v.2 /\ wf_atoms v.1 v.2 /\
               exists y x moved fitted t,
                 kabsch svd ca fo fr v.1 v.2 = Fitted y x moved fitted t)
            pre mvs).
  { clear Hs. induction pre as [|m' pre IH]; [by exists []|].
    apply Forall_cons in Hwfpre as [(mo' & mr' & Hmo' & Wm') Hwfpre].
    apply Forall_cons in Hpre as [(f & t & hi & R) Hpre].
    destruct (IH Hwfpre Hpre) as [mvs HF].
    exists ((mo', mr') :: mvs). constructor; [|exact HF].
    split; [exact Hmo'|]. split; [exact Wm'|].
    destruct (superimpose_single_inv svd h fixed m' ca fo fr mo' mr' f t hi
                Hf Hmo' (fun _ => conj Wf Wm') R)
      as (y & x & mv & ft & Hk & _).
    by exists y, x, mv, ft, t. }
  destruct HF as [mvs HF].
  pose proof (superimpose_loop_first_failure svd fixed ca fo fr m mo mr post e
                Wf Wm He pre mvs h [] [] Hf Hmo HF) as Hl.
  pose proof (superimpose_stack_run svd h fixed mobile ca fo _ (proj1 Hf) Hs)
    as Hrun.
  destruct (superimpose_loop svd fixed ca (pre ++ m :: post) [] [] h)
    as [[ft|e'] h1]; cbn in Hl; [done|].
  injection Hl as ->. by exists h1.
Qed.

Lemma batch_raises_first_failure_witness :
  exists h',
    runs (superimpose svd_diag 1 4 false) 
      (<[4%nat := CAtomArrayStack [3; 7; 5]%nat]> tri_heap)
      (Raise (name_error "BadStructureException")) h'.
Proof.
  apply (batch_raises_first_failure svd_diag
           (<[4%nat := CAtomArrayStack [3; 7; 5]%nat]> tri_heap) 1 4 false
           (mkAtomArray 0 tri_names tri_annot) tri [3] 7 [5]
           (name_error "BadStructureException")
           (<[4%nat := CAtomArrayStack [3; 7; 5]%nat]> tri_heap
              ++ [CNdarray [(2, 0, 0)%Q]; CNdarray tri])).
  - split; reflexivity.
  - reflexivity.
  - reflexivity.
  - repeat constructor;
      [ exists (mkAtomArray 2 tri_names tri_annot), tri
      | exists (mkAtomArray 6 [" CA "] []), [(2, 0, 0)%Q] ];
      repeat split; reflexivity.
  - repeat constructor. eexists _, _, _. vm_compute. reflexivity.
  - vm_compute. reflexivity.
Defined.

(** * The info block parser of the BLAST client *)

(** ** Strings *)

Lemma append_cons x (a b : string) : String x a +:+ b = String x (a +:+ b).
Proof. reflexivity. Qed.

Lemma append_nil_l (a : string) : "" +:+ a = a.
Proof. reflexivity. Qed.

Lemma append_assoc (a b c : string) : (a +:+ b) +:+ c = a +:+ (b +:+ c).
Proof. induction a as [|x a IH]; [done|]. rewrite !append_cons. by f_equal. Qed.

Lemma no_char_nil c : no_char c "".
Proof. intros []. Qed.

Lemma no_char_cons c a s : no_char c (String a s) <-> a <> c /\ no_char c s.
Proof. unfold no_char. cbn. intuition. Qed.

Lemma no_char_app c s t : no_char c s -> no_char c t -> no_char c (s +:+ t).
Proof.
  intros Hs Ht. induction s as [|a s IH]; [done|]. rewrite append_cons.
  apply no_char_cons in Hs as [Ha Hs]. apply no_char_cons. auto.
Qed.

Lemma split_on_no_sep c s : no_char c s -> split_on c s = [s].
Proof.
  induction s as [|a s IH]; intros Hs; cbn; [done|].
  apply no_char_cons in Hs as [Ha Hs].
  apply Ascii.eqb_neq in Ha. rewrite Ha, (IH Hs). done.
Qed.

Lemma split_on_app c s t :
  no_char c s -> split_on c (s +:+ String c t) = s :: split_on c t.
Proof.
  induction s as [|a s IH]; intros Hs.
  - rewrite append_nil_l. cbn. by rewrite Ascii.eqb_refl.
  - rewrite append_cons. cbn [split_on].
    apply no_char_cons in Hs as [Ha Hs].
    apply Ascii.eqb_neq in Ha. rewrite Ha, (IH Hs). done.
Qed.

Lemma split_on_unlines (lines : list string) :
  lines <> [] -> Forall (no_char LF) lines ->
  split_on LF (unlines lines) = lines.
Proof.
  intros Hne Hl. induction Hl as [|x [|y rest] Hx Hrest IH]; [done| |].
  - cbn. by apply split_on_no_sep.
  - change (unlines (x :: y :: rest))
      with (x +:+ String LF (unlines (y :: rest))).
    rewrite split_on_app by done. f_equal. by apply IH.
Qed.

(** The first piece of a split is a prefix of the string. *)
Lemma split_on_head c s :
  exists w ws t, split_on c s = w :: ws /\ s = w +:+ t.
Proof.
  induction s as [|a s (w & ws & t & E & Es)]; cbn.
  - by exists "", [], "".
  - destruct (Ascii.eqb a c).
    + by exists "", (split_on c s), (String a s).
    + rewrite E. exists (String a w), ws, t. rewrite append_cons. by rewrite <- Es.
Qed.

Lemma prefix_app n s t :
  String.prefix n s = true -> String.prefix n (s +:+ t) = true.
Proof.
  revert s. induction n as [|a n IH]; intros s H.
  - by destruct (s +:+ t).
  - destruct s as [|b s]; [done|]. rewrite append_cons. cbn in *.
    destruct (Ascii.ascii_dec a b); [by apply IH | done].
Qed.

Lemma contains_split_on n c s :
  contains n s = false ->
  Forall (fun line => contains n line = false) (split_on c s).
Proof.
  induction s as [|a s IH]; intros Hs.
  - by constructor.
  - cbn [contains] in Hs. apply orb_false_iff in Hs as [Hp Hs].
    specialize (IH Hs). cbn [split_on].
    destruct (Ascii.eqb a c).
    + constructor; [|exact IH].
      destruct n; [done|]. reflexivity.
    + destruct (split_on_head c s) as (w & ws & t & E & Es).
      rewrite E in *. apply Forall_cons in IH as [Hw Hws].
      constructor; [|exact Hws].
      cbn [contains]. rewrite Hw, orb_false_r.
      destruct (String.prefix n (String a w)) eqn:Hpw; [|done].
      apply (prefix_app _ _ t) in Hpw. rewrite append_cons, <- Es in Hpw.
      congruence.
Qed.

Lemma length_lstrip s : String.length (lstrip s) <= String.length s.
Proof.
  induction s as [|a s IH]; cbn; [done|].
  destruct (is_space a); cbn; lia.
Qed.

Lemma lstrip_fixed s :
  lstrip s = s -> s = "" \/ exists a s', s = String a s' /\ is_space a = false.
Proof.
  destruct s as [|a s]; [by left|]. cbn. intros E. right.
  destruct (is_space a) eqn:Ha; [|by exists a, s].
  pose proof (length_lstrip s) as Hl. rewrite E in Hl. cbn in Hl. lia.
Qed.

Lemma rstrip_app_blank s : rstrip (s +:+ " ") = rstrip s.
Proof.
  induction s as [|a s IH]; [done|].
  rewrite append_cons. cbn [rstrip]. by rewrite IH.
Qed.

Lemma strip_padded_left s : trimmed s -> strip ("    " +:+ s +:+ " ") = s.
Proof.
  intros [Hl Hr]. unfold strip.
  change (lstrip ("    " +:+ s +:+ " ")) with (lstrip (s +:+ " ")).
  destruct (lstrip_fixed s Hl) as [-> | (a & s' & -> & Ha)]; [done|].
  rewrite append_cons. cbn [lstrip]. rewrite Ha, <- append_cons.
  by rewrite rstrip_app_blank.
Qed.

Lemma strip_padded_right s : trimmed s -> strip (" " +:+ s) = s.
Proof.
  intros [Hl Hr]. unfold strip.
  change (lstrip (" " +:+ s)) with (lstrip s). by rewrite Hl.
Qed.

(** ** The loop of [_get_info] *)

Lemma info_line_split kv :
  no_char "="%char kv.1 -> no_char "="%char kv.2 ->
  split_on "="%char (info_line kv)
  = ["    " +:+ kv.1 +:+ " "; " " +:+ kv.2].
Proof.
  destruct kv as [k v]. cbn [fst snd]. intros Hk Hv. unfold info_line. cbn [fst snd].
  change ("    " +:+ k +:+ " = " +:+ v)
    with ("    " +:+ k +:+ (" " +:+ String "="%char (" " +:+ v))).
  rewrite <- (append_assoc k), <- (append_assoc "    ").
  rewrite split_on_app.
  - f_equal. apply split_on_no_sep.
    apply (no_char_app _ " "); [|done]. unfold no_char. cbn. intuition discriminate.
  - apply (no_char_app _ "    ").
    { unfold no_char. cbn. intuition discriminate. }
    apply no_char_app; [done|]. unfold no_char. cbn. intuition discriminate.
Qed.

Lemma _get_info_loop_outside lines d :
  Forall (fun line => contains "QBlastInfoBegin" line = false) lines ->
  _get_info_loop lines false d = Ok d.
Proof.
  induction 1 as [|line lines Hb _ IH]; cbn; [done|].
  rewrite Hb. by destruct (contains "QBlastInfoEnd" line).
Qed.

Lemma _get_info_loop_skip lines rest d :
  Forall plain_line lines ->
  _get_info_loop (lines ++ rest) false d = _get_info_loop rest false d.
Proof.
  induction 1 as [|line lines (Hb & He & _) _ IH]; cbn; [done|].
  by rewrite Hb, He.
Qed.

Lemma _get_info_loop_block kvs rest d :
  Forall entry_ok kvs ->
  _get_info_loop (map info_line kvs ++ rest) true d
  = _get_info_loop rest true (assign_all d kvs).
Proof.
  intros H. revert d.
  induction H as [|kv kvs ((Tk & Ek) & (Tv & Ev) & Hb & He & _) _ IH]; intros d;
    [done|].
  cbn [map app _get_info_loop]. rewrite Hb, He.
  rewrite info_line_split by done. cbn [lookup list_lookup].
  rewrite strip_padded_left, strip_padded_right by done.
  apply IH.
Qed.

Lemma assign_all_list_to_map kvs :
  assign_all ∅ kvs = list_to_map (reverse kvs).
Proof.
  unfold assign_all. induction kvs as [|[k v] kvs IH] using rev_ind; [done|].
  by rewrite foldl_snoc, reverse_snoc, list_to_map_cons, IH.
Qed.

Lemma no_char_LF_entry kvs :
  Forall entry_ok kvs -> Forall (no_char LF) (map info_line kvs).
Proof.
  intros H. apply Forall_fmap. eapply Forall_impl; [exact H|].
  by intros kv (_ & _ & _ & _ & Hn).
Qed.

Lemma no_char_LF_plain lines :
  Forall plain_line lines -> Forall (no_char LF) lines.
Proof. intros H. eapply Forall_impl; [exact H|]. by intros l (_ & _ & Hn). Qed.

Ltac literal_no_char := unfold no_char; vm_compute; intuition discriminate.

(** X8. A text that nowhere contains "QBlastInfoBegin" parses to the empty
    dictionary: outside an info block no line is split, so no line can make
    the parser fail. *)
Theorem _get_info_without_block text :
  contains "QBlastInfoBegin" text = false -> _get_info text = Ok ∅.
Proof.
  intros H. unfold _get_info. cbv zeta.
  apply _get_info_loop_outside. by apply contains_split_on.
Qed.

Lemma _get_info_without_block_witness :
  _get_info (unlines ["<html>"; "no equals sign here"; "QBlastInfoEnd"; "a=b"])
  = Ok ∅.
Proof. apply _get_info_without_block. reflexivity. Defined.

(** X9. A response that carries one info block -- any lines without marker
    before and after it, entries written as [    key = value] -- parses to
    the dictionary of the entries, a later entry replacing an earlier one
    with the same key; the lines outside the block are ignored whatever
    they contain. *)
Theorem _get_info_reads_block before kvs after :
  Forall plain_line before -> Forall entry_ok kvs -> Forall plain_line after ->
  _get_info (unlines (before ++ info_block kvs ++ after))
  = Ok (list_to_map (reverse kvs)).
Proof.
  intros Hb Hk Ha. unfold _get_info. cbv zeta.
  rewrite split_on_unlines.
  - rewrite _get_info_loop_skip by done.
    unfold info_block. cbn [app _get_info_loop].
    change (contains "QBlastInfoBegin" "<!--QBlastInfoBegin") with true.
    cbv iota. rewrite <- app_assoc, _get_info_loop_block by done.
    cbn [app _get_info_loop].
    change (contains "QBlastInfoBegin" "QBlastInfoEnd") with false.
    change (contains "QBlastInfoEnd" "QBlastInfoEnd") with true.
    change (contains "QBlastInfoBegin" "-->") with false.
    change (contains "QBlastInfoEnd" "-->") with false.
    cbv iota.
    rewrite _get_info_loop_outside, assign_all_list_to_map; [done|].
    eapply Forall_impl; [exact Ha|]. by intros l (H & _).
  - unfold info_block. by destruct before.
  - apply Forall_app. split; [by apply no_char_LF_plain|].
    apply Forall_app. split.
    + unfold info_block. constructor; [literal_no_char|].
      apply Forall_app. split; [by apply no_char_LF_entry|].
      repeat constructor; literal_no_char.
    + by apply no_char_LF_plain.
Qed.

Ltac each tac :=
  repeat first [ apply Forall_nil_2 | apply Forall_cons_2; [tac|] ].

Ltac plain_literal :=
  split; [reflexivity | split; [reflexivity | literal_no_char]].

Ltac entry_literal :=
  split; [split; [split; reflexivity | literal_no_char]
         | split; [split; [split; reflexivity | literal_no_char]
                  | plain_literal]].

Lemma _get_info_reads_block_witness :
  _get_info (unlines (["<p>"; ""] ++
                      info_block [("RID", "ABC123"); ("RTOE", "18");
                                  ("RID", "XYZ789")] ++
                      ["</p>"]))
  = Ok (list_to_map [("RID", "XYZ789"); ("RTOE", "18"); ("RID", "ABC123")]).
Proof.
  apply (_get_info_reads_block ["<p>"; ""]
           [("RID", "ABC123"); ("RTOE", "18"); ("RID", "XYZ789")] ["</p>"]).
  - each plain_literal.
  - each entry_literal.
  - each plain_literal.
Defined.

(** X10. Inside an info block a line without an equals sign -- an empty
    line, for instance -- makes [_get_info] fail with IndexError at
    [pair[1]]; the entries read before it are lost with the call. *)
Theorem _get_info_fails_on_line_without_equals before kvs bad rest :
  Forall plain_line before -> Forall entry_ok kvs ->
  plain_line bad -> no_char "="%char bad ->
  Forall (no_char LF) rest ->
  _get_info (unlines (before ++ ["<!--QBlastInfoBegin"] ++ map info_line kvs
                        ++ [bad] ++ rest))
  = Raise list_index_error.
Proof.
  intros Hb Hk (Hbb & Hbe & Hbl) Hbad Hr. unfold _get_info. cbv zeta.
  rewrite split_on_unlines.
  - rewrite _get_info_loop_skip by done.
    cbn [app _get_info_loop].
    change (contains "QBlastInfoBegin" "<!--QBlastInfoBegin") with true.
    cbv iota. rewrite _get_info_loop_block by done.
    cbn [app _get_info_loop]. rewrite Hbb, Hbe.
    by rewrite split_on_no_sep.
  - by destruct before.
  - apply Forall_app. split; [by apply no_char_LF_plain|].
    constructor; [literal_no_char|].
    apply Forall_app. split; [by apply no_char_LF_entry|].
    by constructor.
Qed.

Lemma _get_info_fails_on_line_without_equals_witness :
  _get_info (unlines (["<p>"] ++ ["<!--QBlastInfoBegin"] ++
                      map info_line [("RID", "ABC123")] ++ [""] ++
                      ["    RTOE = 18"; "QBlastInfoEnd"]))
  = Raise (Exception "IndexError" "list index out of range").
Proof.
  apply (_get_info_fails_on_line_without_equals ["<p>"] [("RID", "ABC123")] ""
           ["    RTOE = 18"; "QBlastInfoEnd"]).
  - each plain_literal.
  - each entry_literal.
  - plain_literal.
  - literal_no_char.
  - each literal_no_char.
Defined.

(** X11. A value that itself contains an equals sign is cut at it: for the
    block line [k=v=w] the dictionary maps [k.strip()] to [v.strip()], and
    [w] is dropped silently. *)
Theorem _get_info_truncates_value k v w :
  no_char "="%char k -> no_char "="%char v ->
  plain_line (k +:+ String "="%char (v +:+ String "="%char w)) ->
  _get_info (unlines ["QBlastInfoBegin";
                      k +:+ String "="%char (v +:+ String "="%char w);
                      "QBlastInfoEnd"])
  = Ok {[ strip k := strip v ]}.
Proof.
  intros Hk Hv (Hb & He & Hl). unfold _get_info. cbv zeta.
  rewrite split_on_unlines.
  - cbn [_get_info_loop].
    change (contains "QBlastInfoBegin" "QBlastInfoBegin") with true.
    cbv iota. rewrite Hb, He, !split_on_app by done.
    destruct (split_on_head "="%char w) as (x & xs & t & -> & _).
    cbn [lookup list_lookup].
    change (contains "QBlastInfoBegin" "QBlastInfoEnd") with false.
    change (contains "QBlastInfoEnd" "QBlastInfoEnd") with true.
    cbv iota. by rewrite insert_empty.
  - done.
  - repeat constructor; [literal_no_char | done | literal_no_char].
Qed.

Lemma _get_info_truncates_value_witness :
  _get_info (unlines ["QBlastInfoBegin"; "Query=id=42"; "QBlastInfoEnd"])
  = Ok {[ "Query" := "id" ]}.
Proof.
  apply (_get_info_truncates_value "Query" "id" "42").
  - literal_no_char.
  - literal_no_char.
  - plain_literal.
Defined.

(** * Properties of the download client *)

Section FetchProps.

Variable fs : Type.
Variable isdir : fs -> string -> bool.
Variable isfile : fs -> string -> bool.
Variable path_join : string -> string -> string.
Variable makedirs : fs -> string -> result fs.
Variable write_file : fs -> string -> bool -> string -> result fs.
Variable server : request -> response.

Local Abbreviation loop := (fetch_loop fs isfile path_join write_file server).

Lemma said_nil (w : world fs) : said w [] = w.
Proof. destruct w. unfold said. cbn. by rewrite app_nil_r. Qed.

Lemma said_app (w : world fs) l l' : said (said w l) l' = said w (l ++ l').
Proof. unfold said. cbn. by rewrite app_assoc. Qed.

Lemma logged_said (w : world fs) l rs :
  logged (said w l) rs = said (logged w rs) l.
Proof. reflexivity. Qed.

Lemma with_fs_said (w : world fs) l s :
  with_fs (said w l) s = said (with_fs w s) l.
Proof. reflexivity. Qed.

(** Two worlds that differ in how their output and request lists are
    bracketed. *)
Ltac same_world :=
  f_equal; unfold said, logged, with_fs;
  cbn [w_fs w_stdout w_requests map app];
  rewrite <- ?app_assoc; reflexivity.

Lemma progress_cons verbose n i id ids :
  progress verbose n i (id :: ids)
  = progress verbose n i [id] ++ progress verbose n (i + 1) ids.
Proof. by destruct verbose. Qed.

Lemma progress_app verbose n ids : forall i ids',
  progress verbose n i (ids ++ ids')
  = progress verbose n i ids ++ progress verbose n (i + length ids) ids'.
Proof.
  induction ids as [|id ids IH]; intros i ids'.
  - cbn [app length]. rewrite Nat.add_0_r. by destruct verbose.
  - cbn [app length]. rewrite progress_cons, IH, (progress_cons _ _ _ id ids).
    rewrite <- app_assoc. do 3 f_equal. lia.
Qed.

(** One round of the loop for a supported format. *)
Lemma fetch_loop_supported n format target overwrite verbose i id rest files w :
  supported format ->
  loop n format target overwrite verbose i (id :: rest) files w =
    let w := said w (progress verbose n i [id]) in
    let file := match target with
                | Some dir => Some (path_join dir (id +:+ "." +:+ format))
                | None => None
                end in
    let need := match file with
                | None => true
                | Some p => negb (isfile (w_fs w) p) || overwrite
                end in
    if need then
      let r := server (request_for format id) in
      let w1 := logged w [request_for format id] in
      if contains "404 Not Found" (resp_text r)
         || contains "<title>RCSB Protein Data Bank Error Page</title>"
              (resp_text r)
      then (Raise (request_error id), w1)
      else match file with
           | None =>
               loop n format target overwrite verbose (i + 1) rest
                 (files ++ [in_memory format r]) w1
           | Some p =>
               match write_file (w_fs w) p (is_binary format)
                       (payload format r) with
               | Ok s =>
                   loop n format target overwrite verbose (i + 1) rest
                     (files ++ [FilePath p])
                     (with_fs w1 s)
               | Raise e => (Raise e, w1)
               end
           end
    else loop n format target overwrite verbose (i + 1) rest
           (files ++ [file_of file]) w.
Proof.
  intros Hs. unfold supported in Hs.
  assert (Hq : verbose = false -> said w (progress verbose n i [id]) = w)
    by (intros ->; apply said_nil).
  destruct verbose; [clear Hq | rewrite (Hq eq_refl); clear Hq].
  all: repeat (apply elem_of_cons in Hs as [-> | Hs]);
    [..| by apply elem_of_nil in Hs].
  all: cbn [fetch_loop]; cbv zeta;
    repeat match goal with
           | |- context [bool_decide ?P] =>
               let b := eval vm_compute in (bool_decide P) in
               change (bool_decide P) with b
           end;
    unfold os_isfile, requests_get, _assert_valid_file, store_content,
      open_write, print, logged, with_fs, said, progress, progress_lines,
      progress_line, request_for, in_memory, payload, is_binary,
      io_bind, io_ret, io_raise;
    destruct target as [dir|], overwrite; cbn;
    repeat (match goal with
            | |- context [isfile ?s ?p] => destruct (isfile s p)
            | |- context [contains ?a ?b || contains ?c ?d] =>
                destruct (contains a b || contains c d)
            | |- context [write_file ?s ?p ?b ?c] =>
                destruct (write_file s p b c)
            end; cbn);
    reflexivity.
Qed.

Lemma logged_nil (w : world fs) : logged w [] = w.
Proof. destruct w. unfold logged. cbn. by rewrite app_nil_r. Qed.

Lemma logged_app (w : world fs) rs rs' :
  logged (logged w rs) rs' = logged w (rs ++ rs').
Proof. unfold logged. cbn. by rewrite app_assoc. Qed.

Lemma logged_with_fs (w : world fs) s rs :
  logged (with_fs w s) rs = with_fs (logged w rs) s.
Proof. reflexivity. Qed.

Lemma with_fs_same (w : world fs) : with_fs w (w_fs w) = w.
Proof. by destruct w. Qed.

Lemma with_fs_twice (w : world fs) s s' : with_fs (with_fs w s) s' = with_fs w s'.
Proof. reflexivity. Qed.

Lemma valid_response_false r :
  valid_response r ->
  contains "404 Not Found" (resp_text r)
  || contains "<title>RCSB Protein Data Bank Error Page</title>" (resp_text r)
  = false.
Proof. intros [-> ->]. reflexivity. Qed.

Lemma invalid_response_true r :
  ~ valid_response r ->
  contains "404 Not Found" (resp_text r)
  || contains "<title>RCSB Protein Data Bank Error Page</title>" (resp_text r)
  = true.
Proof.
  intros H. unfold valid_response in H.
  destruct (contains "404 Not Found" _); [done|].
  destruct (contains "<title>RCSB Protein Data Bank Error Page</title>" _);
    [done|]. by destruct H.
Qed.

(** One round that finds the file on disk, for any format. *)
Lemma fetch_loop_cached n format dir verbose i id rest files w :
  isfile (w_fs w) (path_join dir (id +:+ "." +:+ format)) = true ->
  loop n format (Some dir) false verbose i (id :: rest) files w =
  loop n format (Some dir) false verbose (i + 1) rest
    (files ++ [FilePath (path_join dir (id +:+ "." +:+ format))])
    (said w (progress verbose n i [id])).
Proof.
  intros H.
  assert (Hq : verbose = false -> said w (progress verbose n i [id]) = w)
    by (intros ->; apply said_nil).
  destruct verbose; [clear Hq | rewrite (Hq eq_refl); clear Hq].
  all: cbn [fetch_loop]; cbv zeta;
    unfold os_isfile, print, io_bind, io_ret; cbn; rewrite H; reflexivity.
Qed.

Lemma not_supported_tests format :
  ~ supported format ->
  String.eqb format "pdb" = false /\
  bool_decide (format ∈ ["cif"; "mmcif"; "pdbx"]) = false /\
  String.eqb format "mmtf" = false /\
  String.eqb format "fasta" = false.
Proof.
  intros H. unfold supported in H. rewrite !elem_of_cons, elem_of_nil in H.
  split; [|split; [|split]].
  - apply String.eqb_neq. intros ->. apply H. auto.
  - apply bool_decide_eq_false. rewrite !elem_of_cons, elem_of_nil.
    intros [Hin | [Hin | [Hin | []]]]; apply H; auto 10.
  - apply String.eqb_neq. intros ->. apply H. auto 10.
  - apply String.eqb_neq. intros ->. apply H. auto 10.
Qed.

(** One round for a format [fetch] does not know, when the id has to be
    downloaded. *)
Lemma fetch_loop_unsupported n format target overwrite verbose i id rest files w :
  ~ supported format ->
  match target with
  | Some dir =>
      isfile (w_fs w) (path_join dir (id +:+ "." +:+ format)) = false
      \/ overwrite = true
  | None => True
  end ->
  loop n format target overwrite verbose i (id :: rest) files w
  = (Raise (format_error format), said w (progress verbose n i [id])).
Proof.
  intros H Hneed. apply not_supported_tests in H as (H1 & H2 & H3 & H4).
  assert (Hq : verbose = false -> said w (progress verbose n i [id]) = w)
    by (intros ->; apply said_nil).
  destruct verbose; [clear Hq | rewrite (Hq eq_refl); clear Hq].
  all: cbn [fetch_loop]; cbv zeta; rewrite H1, H2, H3, H4;
    unfold os_isfile, print, io_bind, io_ret, io_raise; cbn;
    destruct target as [dir|]; [|reflexivity]; cbn [w_fs];
    destruct Hneed as [E | E]; rewrite E; [reflexivity|];
    by rewrite orb_true_r.
Qed.

(** [fetch] on a list in terms of its loop, once the target directory is
    there. *)
Lemma fetch_list_run ids format target overwrite verbose w :
  match target with
  | Some dir => isdir (w_fs w) dir = true
  | None => True
  end ->
  fetch fs isdir isfile path_join makedirs write_file server
    (IdList ids) format target overwrite verbose w
  = match loop (length ids) format target overwrite verbose 0 ids [] w with
    | (Ok files, w') =>
        (Ok (FileList files), said w' (if verbose then [done_line] else []))
    | (Raise e, w') => (Raise e, w')
    end.
Proof.
  intros H. unfold fetch, io_bind, io_ret, os_isdir, print.
  destruct target as [dir|]; [rewrite H|]; cbn;
    destruct (loop _ _ _ _ _ _ _ _ _) as [[files|e] w']; try reflexivity;
    destruct verbose; cbn; try reflexivity; by rewrite said_nil.
Qed.

Lemma said_output (w : world fs) verbose ids :
  said (said w (progress verbose (length ids) 0 ids))
       (if verbose then [done_line] else [])
  = said w (output verbose ids).
Proof. by rewrite said_app. Qed.

Lemma fetch_loop_all_cached n format dir verbose ids :
  forall i files w,
  Forall (fun id => isfile (w_fs w) (path_join dir (id +:+ "." +:+ format)) = true)
         ids ->
  loop n format (Some dir) false verbose i ids files w
  = (Ok (files ++ map (fun id => FilePath (path_join dir (id +:+ "." +:+ format))) ids),
     said w (progress verbose n i ids)).
Proof.
  induction ids as [|id ids IH]; intros i files w H.
  - cbn [fetch_loop map]. rewrite app_nil_r.
    replace (progress verbose n i []) with (@nil string) by (by destruct verbose).
    by rewrite said_nil.
  - apply Forall_cons in H as [Hid H].
    rewrite fetch_loop_cached by done. rewrite IH by done.
    rewrite (progress_cons verbose n i id ids), <- app_assoc. same_world.
Qed.

Lemma progress_nil verbose n i : progress verbose n i [] = [].
Proof. by destruct verbose. Qed.

Lemma fetch_loop_in_memory n format overwrite verbose ids :
  supported format ->
  forall i files w,
  Forall (fun id => valid_response (server (request_for format id))) ids ->
  loop n format None overwrite verbose i ids files w
  = (Ok (files ++ map (fun id => in_memory format (server (request_for format id))) ids),
     said (logged w (map (request_for format) ids)) (progress verbose n i ids)).
Proof.
  intros Hs. induction ids as [|id ids IH]; intros i files w H.
  - cbn [fetch_loop map]. by rewrite app_nil_r, logged_nil, progress_nil, said_nil.
  - apply Forall_cons in H as [Hid H].
    rewrite fetch_loop_supported by done. cbv zeta.
    rewrite valid_response_false by done.
    rewrite IH by done.
    rewrite (progress_cons verbose n i id ids), <- app_assoc. same_world.
Qed.

Lemma fetch_loop_stops_at_invalid n format overwrite verbose id post :
  supported format ->
  ~ valid_response (server (request_for format id)) ->
  forall pre i files w,
  Forall (fun id' => valid_response (server (request_for format id'))) pre ->
  loop n format None overwrite verbose i (pre ++ id :: post) files w
  = (Raise (request_error id),
     said (logged w (map (request_for format) (pre ++ [id])))
          (progress verbose n i (pre ++ [id]))).
Proof.
  intros Hs Hbad. induction pre as [|id' pre IH]; intros i files w H.
  - cbn [app]. rewrite fetch_loop_supported by done. cbv beta iota zeta.
    rewrite invalid_response_true by done. by rewrite logged_said.
  - apply Forall_cons in H as [Hid H]. cbn [app].
    rewrite fetch_loop_supported by done. cbv beta iota zeta.
    rewrite valid_response_false by done.
    rewrite IH by done.
    rewrite (progress_cons verbose n i id' (pre ++ [id])). same_world.
Qed.

Lemma fetch_loop_stops_at_invalid_on_disk n format dir verbose id post :
  supported format ->
  ~ valid_response (server (request_for format id)) ->
  forall pre i files w s',
  Forall (fun id' => valid_response (server (request_for format id'))) pre ->
  write_all fs path_join write_file (w_fs w) dir format pre
    (fun id => payload format (server (request_for format id)))
    (is_binary format) = Ok s' ->
  loop n format (Some dir) true verbose i (pre ++ id :: post) files w
  = (Raise (request_error id),
     said (with_fs (logged w (map (request_for format) (pre ++ [id]))) s')
          (progress verbose n i (pre ++ [id]))).
Proof.
  intros Hs Hbad. induction pre as [|id' pre IH]; intros i files w s' H Hw.
  - cbn in Hw. injection Hw as <-. cbn [app].
    rewrite fetch_loop_supported by done. cbv beta iota zeta.
    rewrite orb_true_r, invalid_response_true by done.
    rewrite <- (with_fs_same w) at 1. same_world.
  - apply Forall_cons in H as [Hid H]. cbn [app write_all] in *.
    rewrite fetch_loop_supported by done. cbv beta iota zeta.
    rewrite orb_true_r, valid_response_false by done.
    cbn [w_fs said].
    destruct (write_file _ _ _ _) as [s1|e]; [|done].
    rewrite (IH _ _ _ s') by done.
    rewrite (progress_cons verbose n i id' (pre ++ [id])). same_world.
Qed.

(** Whatever the format and the flags, a round of the loop with a target
    directory either raises or goes on with the path of the target file. *)
Lemma fetch_loop_round_path n format dir overwrite verbose i id rest files w :
  (exists e w', loop n format (Some dir) overwrite verbose i (id :: rest) files w
                = (Raise e, w')) \/
  exists w1,
    loop n format (Some dir) overwrite verbose i (id :: rest) files w
    = loop n format (Some dir) overwrite verbose (i + 1) rest
        (files ++ [FilePath (path_join dir (id +:+ "." +:+ format))]) w1.
Proof.
  cbn [fetch_loop]. cbv zeta.
  unfold os_isfile, requests_get, _assert_valid_file, store_content,
    open_write, print, io_bind, io_ret, io_raise.
  destruct verbose, overwrite; cbn;
    repeat (match goal with
            | |- context [isfile ?s ?p] => destruct (isfile s p)
            | |- context [String.eqb ?a ?b] => destruct (String.eqb a b)
            | |- context [bool_decide ?P] => destruct (bool_decide P)
            | |- context [contains ?a ?b || contains ?c ?d] =>
                destruct (contains a b || contains c d)
            | |- context [write_file ?s ?p ?b ?c] =>
                destruct (write_file s p b c)
            end; cbn);
    eauto.
Qed.

Lemma fetch_loop_paths n format dir overwrite verbose ids :
  forall i files w fl w',
  loop n format (Some dir) overwrite verbose i ids files w = (Ok fl, w') ->
  fl = files ++ map (fun id => FilePath (path_join dir (id +:+ "." +:+ format))) ids.
Proof.
  induction ids as [|id ids IH]; intros i files w fl w' H.
  - cbn in H. injection H as <- _. by rewrite app_nil_r.
  - destruct (fetch_loop_round_path n format dir overwrite verbose i id ids files w)
      as [(e & w1 & E) | (w1 & E)]; rewrite E in H; [done|].
    apply IH in H. by rewrite <- app_assoc in H.
Qed.


(** X12. With a target directory that exists and [overwrite] off, ids whose
    target files all exist are served from disk: no request is sent and
    nothing is written, the paths come back in the order of the ids -- for
    every format string, also one [fetch] does not know -- and the only
    effect is the progress output when [verbose] is on. *)
Theorem fetch_serves_existing_files ids format dir verbose w :
  isdir (w_fs w) dir = true ->
  Forall (fun id => isfile (w_fs w) (path_join dir (id +:+ "." +:+ format)) = true)
         ids ->
  fetch fs isdir isfile path_join makedirs write_file server
    (IdList ids) format (Some dir) false verbose w
  = (Ok (FileList
           (map (fun id => FilePath (path_join dir (id +:+ "." +:+ format))) ids)),
     said w (output verbose ids)).
Proof.
  intros Hd Hf. rewrite fetch_list_run by done.
  rewrite fetch_loop_all_cached by done. by rewrite said_output.
Qed.

(** X13. Without a target path and for a supported format, when every
    response is a real file: exactly one request per id is sent, in the
    order of the ids, the file system is not touched, the result holds the
    response of each id as a file-like object ([BytesIO] of the content for
    "mmtf", [StringIO] of the text otherwise), and the progress output is
    printed when [verbose] is on. *)
Theorem fetch_in_memory ids format overwrite verbose w :
  supported format ->
  Forall (fun id => valid_response (server (request_for format id))) ids ->
  fetch fs isdir isfile path_join makedirs write_file server
    (IdList ids) format None overwrite verbose w
  = (Ok (FileList
           (map (fun id => in_memory format (server (request_for format id))) ids)),
     said (logged w (map (request_for format) ids)) (output verbose ids)).
Proof.
  intros Hs Hv. rewrite fetch_list_run by done.
  rewrite fetch_loop_in_memory by done. by rewrite said_output.
Qed.

(** X14. A format that is not supported is reported with ValueError when
    the first id has to be downloaded -- there is no target path, or the
    target directory exists and the file of the id is missing or
    [overwrite] is on: no request is sent and nothing is written; the only
    effect is the progress line of the first id when [verbose] is on. *)
Theorem fetch_rejects_unknown_format id rest format target overwrite verbose w :
  ~ supported format ->
  match target with
  | Some dir =>
      isdir (w_fs w) dir = true /\
      (isfile (w_fs w) (path_join dir (id +:+ "." +:+ format)) = false
       \/ overwrite = true)
  | None => True
  end ->
  fetch fs isdir isfile path_join makedirs write_file server
    (IdList (id :: rest)) format target overwrite verbose w
  = (Raise (format_error format),
     said w (progress verbose (length (id :: rest)) 0 [id])) /\
  fetch fs isdir isfile path_join makedirs write_file server
    (IdStr id) format target overwrite verbose w
  = (Raise (format_error format), said w (progress verbose 1 0 [id])).
Proof.
  intros Hs Ht.
  assert (Hdir : match target with
                 | Some dir => isdir (w_fs w) dir = true
                 | None => True
                 end) by (destruct target; [apply Ht | done]).
  assert (Hneed : match target with
                  | Some dir =>
                      isfile (w_fs w) (path_join dir (id +:+ "." +:+ format))
                      = false \/ overwrite = true
                  | None => True
                  end) by (destruct target; [apply Ht | done]).
  split.
  - rewrite fetch_list_run by done. by rewrite fetch_loop_unsupported.
  - unfold fetch, io_bind, io_ret, os_isdir. cbn [length].
    destruct target as [dir|]; [rewrite Hdir; cbn [negb]|];
      by rewrite fetch_loop_unsupported.
Qed.

(** X15. For an empty list of ids the empty list is returned and no request
    is sent, whatever the format and the flags, as soon as the step that
    prepares the target directory succeeds: a target directory that is
    missing has been created all the same, and "Done" is printed when
    [verbose] is on. *)
Theorem fetch_empty_list format target overwrite verbose w s :
  match target with
  | Some dir =>
      if isdir (w_fs w) dir then s = w_fs w else makedirs (w_fs w) dir = Ok s
  | None => s = w_fs w
  end ->
  fetch fs isdir isfile path_join makedirs write_file server
    (IdList []) format target overwrite verbose w
  = (Ok (FileList []), said (with_fs w s) (output verbose [])).
Proof.
  intros Ht. unfold fetch, io_bind, io_ret, os_isdir, os_makedirs, print, output.
  rewrite progress_nil. cbn [app length fetch_loop].
  destruct target as [dir|].
  - destruct (isdir (w_fs w) dir); cbn.
    + subst s. rewrite with_fs_same.
      destruct verbose; cbn; [reflexivity | by rewrite said_nil].
    + rewrite Ht. destruct verbose; cbn; [reflexivity|].
      by rewrite said_nil.
  - subst s. rewrite with_fs_same.
    destruct verbose; cbn; [reflexivity | by rewrite said_nil].
Qed.

(** X16. Without a target path and for a supported format, an id for which
    the server answers with an error page stops the call with RequestError
    naming that id: the ids before it have been requested, the ids after it
    never are, no file object is returned, not even for the ids that were
    fine, and the progress lines up to that id have been printed when
    [verbose] is on. *)
Theorem fetch_stops_at_invalid_id pre id post format overwrite verbose w :
  supported format ->
  Forall (fun id' => valid_response (server (request_for format id'))) pre ->
  ~ valid_response (server (request_for format id)) ->
  fetch fs isdir isfile path_join makedirs write_file server
    (IdList (pre ++ id :: post)) format None overwrite verbose w
  = (Raise (request_error id),
     said (logged w (map (request_for format) (pre ++ [id])))
          (progress verbose (length (pre ++ id :: post)) 0 (pre ++ [id]))).
Proof.
  intros Hs Hpre Hbad. rewrite fetch_list_run by done.
  by rewrite fetch_loop_stops_at_invalid.
Qed.

(** X17. The failure is not rolled back: with a target directory that
    exists, [overwrite] on and a supported format, the files of the ids
    before the invalid one have been written when RequestError is raised,
    and nothing is written for the invalid id itself, since the response is
    checked before the file is opened. *)
Theorem fetch_keeps_earlier_files pre id post format dir verbose w s' :
  supported format ->
  isdir (w_fs w) dir = true ->
  Forall (fun id' => valid_response (server (request_for format id'))) pre ->
  ~ valid_response (server (request_for format id)) ->
  write_all fs path_join write_file (w_fs w) dir format pre
    (fun id => payload format (server (request_for format id)))
    (is_binary format) = Ok s' ->
  fetch fs isdir isfile path_join makedirs write_file server
    (IdList (pre ++ id :: post)) format (Some dir) true verbose w
  = (Raise (request_error id),
     said (with_fs (logged w (map (request_for format) (pre ++ [id]))) s')
          (progress verbose (length (pre ++ id :: post)) 0 (pre ++ [id]))).
Proof.
  intros Hs Hd Hpre Hbad Hw. rewrite fetch_list_run by done.
  by rewrite (fetch_loop_stops_at_invalid_on_disk _ _ _ _ _ _ Hs Hbad _ _ _ _ s').
Qed.

(** X18. With a target directory, a call that returns hands back exactly
    the target paths [join(target_path, id + "." + format)] of the ids, in
    their order -- whichever of them were downloaded and whichever were
    found on disk, for every format and every setting of the flags. *)
Theorem fetch_returns_target_paths ids format dir overwrite verbose w fl w' :
  fetch fs isdir isfile path_join makedirs write_file server
    (IdList ids) format (Some dir) overwrite verbose w
  = (Ok (FileList fl), w') ->
  fl = map (fun id => FilePath (path_join dir (id +:+ "." +:+ format))) ids.
Proof.
  unfold fetch, io_bind. intros H.
  destruct (os_isdir fs isdir dir w) as [[d|e] w0]; [|done].
  destruct ((if negb d then os_makedirs fs makedirs dir else io_ret ()) w0)
    as [[[]|e] w1]; [|done].
  destruct (loop _ _ _ _ _ _ _ _ _) as [[files|e] w2] eqn:El; [|done].
  apply fetch_loop_paths in El. cbn in El.
  destruct verbose; cbn in H; by injection H as <- _.
Qed.

(** A round of the loop either raises or goes on with one more entry. *)
Lemma fetch_loop_round n format target overwrite verbose i id rest files w :
  (exists e w', loop n format target overwrite verbose i (id :: rest) files w
                = (Raise e, w')) \/
  exists x w1,
    loop n format target overwrite verbose i (id :: rest) files w
    = loop n format target overwrite verbose (i + 1) rest (files ++ [x]) w1.
Proof.
  cbn [fetch_loop]. cbv zeta. unfold io_bind.
  repeat match goal with
         | |- context [let (_, _) := ?m in _] => destruct m as [[?|?] ?]
         end; eauto.
Qed.

(** X21. Called with a single id as a string, [fetch] does what it does
    for the one-element list of that id and hands back the element itself
    instead of the list; the list has exactly one entry, so taking
    [files[0]] never fails. *)
Theorem fetch_single_id id format target overwrite verbose w :
  match fetch fs isdir isfile path_join makedirs write_file server
          (IdList [id]) format target overwrite verbose w with
  | (Ok (FileList [f]), w') =>
      fetch fs isdir isfile path_join makedirs write_file server
        (IdStr id) format target overwrite verbose w = (Ok (OneFile f), w')
  | (Ok _, _) => False
  | (Raise e, w') =>
      fetch fs isdir isfile path_join makedirs write_file server
        (IdStr id) format target overwrite verbose w = (Raise e, w')
  end.
Proof.
  unfold fetch, io_bind. cbv beta iota zeta. cbn [length].
  match goal with
  | |- context [match ?t with Some _ => _ | None => _ end w] =>
      destruct (match t with Some _ => _ | None => io_ret () end w)
        as [[[]|e] w0]
  end; [|done].
  destruct (fetch_loop_round 1 format target overwrite verbose 0 id [] [] w0)
    as [(e & w1 & E) | (x & w1 & E)]; rewrite E; [done|].
  cbn [fetch_loop app io_ret].
  destruct verbose; cbn; done.
Qed.

(** ** No id is requested twice *)

Lemma length_append (a b : string) :
  String.length (a +:+ b) = String.length a + String.length b.
Proof. induction a as [|x a IH]; [done|]. rewrite append_cons. cbn. by rewrite IH. Qed.

Lemma append_inj_l (s a b : string) : s +:+ a = s +:+ b -> a = b.
Proof.
  induction s as [|x s IH]; [done|]. rewrite !append_cons. intros [= H]. auto.
Qed.

Lemma append_inj_r (s a b : string) : a +:+ s = b +:+ s -> a = b.
Proof.
  revert b. induction a as [|x a IH]; intros [|y b] H.
  - done.
  - apply (f_equal String.length) in H.
    rewrite append_nil_l, append_cons in H. cbn in H.
    rewrite length_append in H. lia.
  - apply (f_equal String.length) in H.
    rewrite append_nil_l, append_cons in H. cbn in H.
    rewrite length_append in H. lia.
  - rewrite !append_cons in H. injection H as -> H. f_equal. by apply IH.
Qed.

(** Different ids give different requests, in every format. *)
Lemma request_for_inj format id id' :
  request_for format id = request_for format id' -> id = id'.
Proof.
  unfold request_for.
  repeat match goal with |- context [String.eqb ?a ?b] => destruct (String.eqb a b) end;
    intros [= H]; try done;
    rewrite ?append_nil_l in H; by apply append_inj_r in H.
Qed.

Section NoRepeat.

(** Two facts about the file system: after a write that succeeds the path
    is a file, and the files that were there are still there. *)
Hypothesis write_makes_file : forall s p b c s',
  write_file s p b c = Ok s' -> isfile s' p = true.
Hypothesis write_keeps_files : forall s p b c s' q,
  write_file s p b c = Ok s' -> isfile s q = true -> isfile s' q = true.

(** One round for a format [fetch] does not know, with a target directory
    and [overwrite] off. *)
Lemma fetch_loop_unsupported_cached n format dir verbose i id rest files w :
  ~ supported format ->
  loop n format (Some dir) false verbose i (id :: rest) files w
  = if isfile (w_fs w) (path_join dir (id +:+ "." +:+ format))
    then loop n format (Some dir) false verbose (i + 1) rest
           (files ++ [FilePath (path_join dir (id +:+ "." +:+ format))])
           (said w (progress verbose n i [id]))
    else (Raise (format_error format), said w (progress verbose n i [id])).
Proof.
  intros Hs.
  destruct (isfile (w_fs w) (path_join dir (id +:+ "." +:+ format))) eqn:E.
  - by apply fetch_loop_cached.
  - apply fetch_loop_unsupported; [done | by left].
Qed.

(** The ids in [sent0] have been downloaded before the loop goes on: their
    files are there, so the loop requests none of them again. *)
Lemma fetch_loop_no_repeat n format dir verbose ids :
  forall i files w sent0,
  Forall (fun id => isfile (w_fs w) (path_join dir (id +:+ "." +:+ format)) = true)
         sent0 ->
  NoDup sent0 ->
  exists sent,
    w_requests (loop n format (Some dir) false verbose i ids files w).2
    = w_requests w ++ map (request_for format) sent /\
    NoDup (sent0 ++ sent) /\ sent ⊆ ids.
Proof.
  induction ids as [|id ids IH]; intros i files w sent0 Hinv Hnd.
  { exists []. cbn. rewrite !app_nil_r. by split. }
  set (p := path_join dir (id +:+ "." +:+ format)).
  assert (Hskip : isfile (w_fs w) p = true ->
    exists sent,
      w_requests
        (loop n format (Some dir) false verbose (i + 1) ids
           (files ++ [FilePath p]) (said w (progress verbose n i [id]))).2
      = w_requests w ++ map (request_for format) sent /\
      NoDup (sent0 ++ sent) /\ sent ⊆ id :: ids).
  { intros _.
    destruct (IH (i + 1) (files ++ [FilePath p])
                (said w (progress verbose n i [id])) sent0 Hinv Hnd)
      as (sent & E & Hn & Hsub).
    exists sent. split; [exact E|]. split; [exact Hn|].
    by apply list_subseteq_cons. }
  destruct (decide (supported format)) as [Hs|Hs].
  - rewrite fetch_loop_supported by done. cbv beta iota zeta.
    cbn [w_fs said]. fold p. rewrite orb_false_r.
    destruct (isfile (w_fs w) p) eqn:Ef; cbn [negb].
    { by apply Hskip. }
    assert (Hfresh : id ∉ sent0).
    { intros Hin. rewrite Forall_forall in Hinv. specialize (Hinv id Hin).
      fold p in Hinv. congruence. }
    assert (Hsingle : [id] ⊆ id :: ids).
    { apply list_subseteq_skip, list_subseteq_nil. }
    assert (Hone : NoDup (sent0 ++ [id])).
    { apply NoDup_app. split; [exact Hnd|]. split; [|apply NoDup_singleton].
      intros x Hx Hx'%list_elem_of_singleton. by subst. }
    destruct (contains _ _ || contains _ _).
    { exists [id]. cbn. split; [done|]. by split. }
    destruct (write_file (w_fs w) p (is_binary format) _) as [s|e] eqn:Ew.
    2:{ exists [id]. cbn. split; [done|]. by split. }
    destruct (IH (i + 1) (files ++ [FilePath p])
                (with_fs (logged (said w (progress verbose n i [id]))
                            [request_for format id]) s)
                (sent0 ++ [id])) as (sent & E & Hn & Hsub).
    + cbn [w_fs with_fs]. apply Forall_app. split.
      * eapply Forall_impl; [exact Hinv|]. cbn. intros x Hx.
        by eapply write_keeps_files.
      * apply Forall_singleton. by eapply write_makes_file.
    + exact Hone.
    + exists (id :: sent). rewrite E. cbn. rewrite <- app_assoc. cbn.
      split; [done|]. split.
      * by rewrite <- app_assoc in Hn.
      * by apply list_subseteq_skip.
  - rewrite fetch_loop_unsupported_cached by done. fold p.
    destruct (isfile (w_fs w) p) eqn:Ef.
    { by apply Hskip. }
    exists []. cbn. rewrite !app_nil_r. split; [done|]. split; [done|].
    apply list_subseteq_nil.
Qed.

Lemma fetch_list_no_repeat ids format dir verbose w :
  exists sent,
    w_requests
      (fetch fs isdir isfile path_join makedirs write_file server
         (IdList ids) format (Some dir) false verbose w).2
    = w_requests w ++ map (request_for format) sent /\
    NoDup sent /\ sent ⊆ ids.
Proof.
  unfold fetch, io_bind, io_ret, os_isdir, os_makedirs. cbn [fst snd].
  assert (Hloop : forall w0, w_requests w0 = w_requests w ->
    exists sent,
      w_requests
        (let (r, w') := loop (length ids) format (Some dir) false verbose 0 ids [] w0 in
         match r with
         | Ok files =>
             let (r0, w'0) :=
               (if verbose then print fs (String LF "Done") (String LF "")
                else fun w1 => (Ok (), w1)) w' in
             match r0 with
             | Ok _ => (Ok (FileList files), w'0)
             | Raise e => (Raise e, w'0)
             end
         | Raise e => (Raise e, w')
         end).2
      = w_requests w ++ map (request_for format) sent /\
      NoDup sent /\ sent ⊆ ids).
  { intros w0 Ew.
    destruct (fetch_loop_no_repeat (length ids) format dir verbose ids 0 [] w0 [])
      as (sent & E & Hn & Hsub); [constructor | constructor |].
    exists sent. split; [|by split].
    rewrite <- Ew, <- E.
    destruct (loop _ _ _ _ _ _ _ _ _) as [[files|e] w']; [|done].
    by destruct verbose. }
  destruct (isdir (w_fs w) dir); cbn [negb].
  - by apply Hloop.
  - destruct (makedirs (w_fs w) dir) as [s|e].
    + by apply Hloop.
    + exists []. cbn. rewrite app_nil_r. split; [done|]. split; [constructor|].
      apply list_subseteq_nil.
Qed.

(** X19. With a target directory and [overwrite] off, no id is requested
    twice in one call, however often it occurs in the list: the second
    occurrence finds the file written for the first.  The requests sent are
    pairwise different and are those of a duplicate-free selection of the
    ids, for every format and with or without progress output, on a file
    system where a write that succeeds makes its path a file and removes
    no other file. *)
Theorem fetch_requests_no_id_twice ids format dir verbose w :
  exists sent,
    w_requests
      (fetch fs isdir isfile path_join makedirs write_file server
         (IdList ids) format (Some dir) false verbose w).2
    = w_requests w ++ map (request_for format) sent /\
    NoDup (map (request_for format) sent) /\
    NoDup sent /\ sent ⊆ ids.
Proof.
  destruct (fetch_list_no_repeat ids format dir verbose w)
    as (sent & E & Hn & Hsub).
  exists sent. split; [exact E|]. split; [|by split].
  apply NoDup_fmap_2_strong; [|exact Hn].
  intros x y _ _. apply request_for_inj.
Qed.

End NoRepeat.

End FetchProps.

(** X20. In memory, the formats "mmcif" and "pdbx" are served exactly like
    "cif": the same requests, the same results, the same output. *)
Theorem fetch_cif_synonyms fs isdir isfile path_join makedirs write_file server
    ids overwrite verbose (w : world fs) :
  fetch fs isdir isfile path_join makedirs write_file server
    ids "mmcif" None overwrite verbose w
  = fetch fs isdir isfile path_join makedirs write_file server
      ids "cif" None overwrite verbose w /\
  fetch fs isdir isfile path_join makedirs write_file server
    ids "pdbx" None overwrite verbose w
  = fetch fs isdir isfile path_join makedirs write_file server
      ids "cif" None overwrite verbose w.
Proof.
  assert (Hloop : forall format, format ∈ ["mmcif"; "pdbx"] ->
    forall l n i files w0,
      fetch_loop fs isfile path_join write_file server n format None
        overwrite verbose i l files w0
      = fetch_loop fs isfile path_join write_file server n "cif" None
          overwrite verbose i l files w0).
  { intros format Hf.
    induction l as [|id l IH]; intros n i files w0; [done|].
    repeat (apply elem_of_cons in Hf as [-> | Hf]); [..| by apply elem_of_nil in Hf].
    all: cbn [fetch_loop]; cbv zeta;
      repeat match goal with
             | |- context [bool_decide ?P] =>
                 let b := eval vm_compute in (bool_decide P) in
                 change (bool_decide P) with b
             end;
      unfold io_bind; destruct verbose; cbn;
      match goal with
      | |- context [_assert_valid_file ?t ?i ?w1] =>
          destruct (_assert_valid_file t i w1) as [[[]|e] w2]
      end; cbn; first [apply IH; set_solver | reflexivity]. }
  split; unfold fetch, io_bind; destruct ids as [id|l]; cbn -[fetch_loop];
    rewrite Hloop by set_solver; reflexivity.
Qed.

(** *** Sample runs *)

Ltac not_in_literal :=
  let H := fresh in
  intros H; apply (bool_decide_pack _) in H; vm_compute in H; exact H.

Ltac in_literal := apply (bool_decide_unpack _); vm_compute; exact I.

Lemma fetch_serves_existing_files_witness :
  sample_fetch (IdList ["1l2y"]) "xyz" (Some "data") false true sample_world
  = (Ok (FileList [FilePath "data/1l2y.xyz"]),
     said sample_world (output true ["1l2y"])).
Proof.
  apply (fetch_serves_existing_files flat_fs flat_isdir flat_isfile flat_join
           flat_makedirs flat_write sample_server ["1l2y"] "xyz" "data" true
           sample_world).
  - reflexivity.
  - each ltac:(reflexivity).
Defined.

Lemma fetch_in_memory_witness :
  sample_fetch (IdList ["1l2y"; "1l2y"]) "mmtf" None false true sample_world
  = (Ok (FileList [BytesIO "bytes-of-1l2y"; BytesIO "bytes-of-1l2y"]),
     said
       (logged sample_world
          [Request "https://mmtf.rcsb.org/v1.0/full/1l2y" [];
           Request "https://mmtf.rcsb.org/v1.0/full/1l2y" []])
       (output true ["1l2y"; "1l2y"])).
Proof.
  apply (fetch_in_memory flat_fs flat_isdir flat_isfile flat_join
           flat_makedirs flat_write sample_server ["1l2y"; "1l2y"] "mmtf"
           false true sample_world).
  - in_literal.
  - each ltac:(split; reflexivity).
Defined.

Lemma fetch_rejects_unknown_format_witness :
  sample_fetch (IdList ["1l2y"; "3o5r"]) "abc" (Some "data") false true
    sample_world
  = (Raise (Exception "ValueError" "Format 'abc' is not supported"),
     said sample_world (progress true 2 0 ["1l2y"])) /\
  sample_fetch (IdStr "1l2y") "abc" (Some "data") false true sample_world
  = (Raise (Exception "ValueError" "Format 'abc' is not supported"),
     said sample_world (progress true 1 0 ["1l2y"])).
Proof.
  apply (fetch_rejects_unknown_format flat_fs flat_isdir flat_isfile flat_join
           flat_makedirs flat_write sample_server "1l2y" ["3o5r"] "abc"
           (Some "data") false true sample_world).
  - not_in_literal.
  - split; [reflexivity | left; reflexivity].
Defined.

Lemma fetch_empty_list_witness :
  sample_fetch (IdList []) "xyz" (Some "new") false true sample_world
  = (Ok (FileList []),
     said
       (with_fs sample_world
          (FlatFs ["new"; "data"] [("data/1l2y.xyz", "old")]))
       (output true [])).
Proof.
  apply (fetch_empty_list flat_fs flat_isdir flat_isfile flat_join
           flat_makedirs flat_write sample_server "xyz" (Some "new") false true
           sample_world).
  reflexivity.
Defined.

Lemma fetch_stops_at_invalid_id_witness :
  sample_fetch (IdList (["1l2y"] ++ "9zzz" :: ["1l2y"])) "pdb" None false true
    sample_world
  = (Raise (Exception "RequestError" "PDB ID 9zzz is invalid"),
     said
       (logged sample_world
          [Request "https://files.rcsb.org/download/1l2y.pdb" [];
           Request "https://files.rcsb.org/download/9zzz.pdb" []])
       (progress true 3 0 ["1l2y"; "9zzz"])).
Proof.
  apply (fetch_stops_at_invalid_id flat_fs flat_isdir flat_isfile flat_join
           flat_makedirs flat_write sample_server ["1l2y"] "9zzz" ["1l2y"]
           "pdb" false true sample_world).
  - in_literal.
  - each ltac:(split; reflexivity).
  - intros [H _]. vm_compute in H. discriminate.
Defined.

Lemma fetch_keeps_earlier_files_witness :
  sample_fetch (IdList (["1l2y"] ++ "9zzz" :: ["1l2y"])) "cif" (Some "data")
    true true sample_world
  = (Raise (Exception "RequestError" "PDB ID 9zzz is invalid"),
     said
       (with_fs
          (logged sample_world
             [Request "https://files.rcsb.org/download/1l2y.cif" [];
              Request "https://files.rcsb.org/download/9zzz.cif" []])
          (FlatFs ["data"]
             [("data/1l2y.cif", "HEADER 1L2Y"); ("data/1l2y.xyz", "old")]))
       (progress true 3 0 ["1l2y"; "9zzz"])).
Proof.
  apply (fetch_keeps_earlier_files flat_fs flat_isdir flat_isfile flat_join
           flat_makedirs flat_write sample_server ["1l2y"] "9zzz" ["1l2y"]
           "cif" "data" true sample_world).
  - in_literal.
  - reflexivity.
  - each ltac:(split; reflexivity).
  - intros [H _]. vm_compute in H. discriminate.
  - reflexivity.
Defined.

Lemma fetch_returns_target_paths_witness :
  exists fl w',
    sample_fetch (IdList ["1l2y"; "1l2y"]) "fasta" (Some "data") false true
      sample_world = (Ok (FileList fl), w') /\
    fl = [FilePath "data/1l2y.fasta"; FilePath "data/1l2y.fasta"].
Proof.
  assert (Hrun : exists fl w',
    sample_fetch (IdList ["1l2y"; "1l2y"]) "fasta" (Some "data") false true
      sample_world = (Ok (FileList fl), w')).
  { eexists _, _. vm_compute. reflexivity. }
  destruct Hrun as (fl & w' & Hrun). exists fl, w'. split; [exact Hrun|].
  apply (fetch_returns_target_paths flat_fs flat_isdir flat_isfile flat_join
           flat_makedirs flat_write sample_server ["1l2y"; "1l2y"] "fasta"
           "data" false true sample_world fl w' Hrun).
Defined.

Lemma flat_write_makes_file s p b c s' :
  flat_write s p b c = Ok s' -> flat_isfile s' p = true.
Proof.
  unfold flat_write, flat_isfile. destruct (flat_isdir s p); [done|].
  intros [= <-]. cbn. apply bool_decide_eq_true, elem_of_cons. by left.
Qed.

Lemma flat_write_keeps_files s p b c s' q :
  flat_write s p b c = Ok s' -> flat_isfile s q = true -> flat_isfile s' q = true.
Proof.
  unfold flat_write, flat_isfile. destruct (flat_isdir s p); [done|].
  intros [= <-] H. cbn. apply bool_decide_eq_true, elem_of_cons. right.
  by apply bool_decide_eq_true in H.
Qed.

Lemma fetch_requests_no_id_twice_witness :
  exists sent,
    w_requests
      (sample_fetch (IdList ["1l2y"; "3o5r"; "1l2y"]) "cif" (Some "data")
         false true sample_world).2
    = w_requests sample_world ++ map (request_for "cif") sent /\
    NoDup (map (request_for "cif") sent) /\
    NoDup sent /\ sent ⊆ ["1l2y"; "3o5r"; "1l2y"].
Proof.
  apply (fetch_requests_no_id_twice flat_fs flat_isdir flat_isfile flat_join
           flat_makedirs flat_write sample_server flat_write_makes_file
           flat_write_keeps_files ["1l2y"; "3o5r"; "1l2y"] "cif" "data" true
           sample_world).
Defined.

(** * The fall-through of [_superimpose] *)

Section FallThrough.

Variable svd : mat3 -> mat3 * vec3 * mat3.

Lemma not_None_bind {A B} (m : M A) (k : A -> M (option B)) h :
  (forall a h1, not_None (k a h1).1) -> not_None (bind m k h).1.
Proof.
  intros Hk. unfold bind. destruct (m h) as [[a|e] h1]; [apply Hk | done].
Qed.

Lemma bind_type_ {B} (x : loc) (k : pytype -> M B) h :
  bind (type_ x) k h = k (type_of_cell (h !! x)) h.
Proof. reflexivity. Qed.

Lemma raise_class_not_PyNone cls msg h :
  not_PyNone (raise_class (A := sup_result) cls msg h).1.
Proof. unfold raise_class. by destruct (is_bound cls). Qed.

Lemma _superimpose_AtomArray_not_None (h : heap) fixed mobile ca o :
  h !! mobile = Some (CAtomArray o) ->
  not_None (_superimpose svd fixed mobile ca h).1.
Proof.
  intros Hm. unfold _superimpose.
  rewrite bind_type_, Hm. cbn [type_of_cell].
  destruct (decide (TAtomArray = TAtomArray)) as [_|]; [|done].
  repeat (apply not_None_bind; intros ? ?).
  destruct (negb _); [unfold raise_class; by destruct (is_bound _)|].
  repeat (apply not_None_bind; intros ? ?).
  destruct (svd _) as [[v s] w].
  repeat (apply not_None_bind; intros ? ?).
  done.
Qed.

(** X22. [superimpose] never returns [None]: the silent fall-through of
    [_superimpose] for a mobile that is not an AtomArray cannot be reached
    through it, because [_superimpose] is only called once the mobile has
    been found to be an AtomArray or a member of a stack, and a member that
    is no AtomArray makes the unpacking of the result fail with TypeError. *)
Theorem superimpose_never_returns_None (h : heap) fixed mobile ca :
  not_PyNone (superimpose svd fixed mobile ca h).1.
Proof.
  unfold superimpose. rewrite bind_type_.
  destruct (decide (type_of_cell (h !! fixed) <> TAtomArray));
    [apply raise_class_not_PyNone|].
  rewrite bind_type_.
  destruct (h !! mobile) as [[rows | o | models |]|] eqn:Hm; cbn [type_of_cell].
  all: destruct (decide (_ = TAtomArray)) as [E|_]; try discriminate E.
  all: try (destruct (decide (_ = TAtomArrayStack)) as [E|_];
            try discriminate E).
  all: try apply raise_class_not_PyNone.
  - pose proof (_superimpose_AtomArray_not_None h fixed mobile ca o Hm) as Hn.
    unfold bind. destruct (_superimpose svd fixed mobile ca h) as [[[[f t]|]|e] h1];
      done.
  - unfold bind.
    destruct (iter_stack mobile h) as [[ms|e] h1]; [|done].
    destruct (superimpose_loop svd fixed ca ms [] [] h1) as [[ft|e] h2]; [|done].
    unfold stack, alloc, ret. done.
Qed.

End FallThrough.
